(** * node-labeler-operator: the command entry point (cmd/root.go)

  A shallow embedding of [cmd/root.go]: the flag and configuration set-up
  ([init], [initConfig]), the entry point [run] with its three channels, the
  operator goroutine and the final [select], and [Execute].

  Go values are modelled as follows.
  - [error] is [option string]; [None] is Go's [nil].
  - [int] (on a 64-bit platform) and [time.Duration] are 64-bit signed
    integers, carried by [Z] with the wrap-around of Go's arithmetic
    written out ([time.wrap64]).
  - Package-level variables ([cfgFile], the viper singleton, the flag sets
    of [rootCmd], standard output) are threaded as an explicit [Globals].
  - A channel is a record of capacity, buffer and closed bit; the two
    goroutines of [run] are program counters in a [State]; a schedule is
    a list of [Event]s, and [step] is the transition function. *)

From Stdlib Require Import ZArith List String Ascii Bool Lia.
Import ListNotations.

Local Open Scope Z_scope.
Local Open Scope string_scope.

(** Go's [error] interface: [None] is [nil], [Some msg] an error whose
    [Error()] text is [msg]. *)
Definition error : Type := option string.

(* ------------------------------------------------------------------ *)
(** ** package time *)

Module time.

(** [type Duration int64], a count of nanoseconds. *)
Definition Duration : Type := Z.

Definition min_int64 : Z := - 2 ^ 63.
Definition max_int64 : Z := 2 ^ 63 - 1.

(** Two's-complement wrap-around of a 64-bit signed integer. *)
Definition wrap64 (z : Z) : Z := (z + 2 ^ 63) mod 2 ^ 64 - 2 ^ 63.

Definition Nanosecond : Duration := 1.
Definition Microsecond : Duration := 1000 * Nanosecond.
Definition Millisecond : Duration := 1000 * Microsecond.
Definition Second : Duration := 1000 * Millisecond.

(** The conversion [time.Duration(n)] of an [int]. *)
Definition of_int (n : Z) : Duration := wrap64 n.

(** [a * b] on [Duration]: int64 multiplication, which wraps. *)
Definition mul (a b : Duration) : Duration := wrap64 (a * b).

End time.

(* ------------------------------------------------------------------ *)
(** ** Configuration values, flags and the viper singleton

    The contract of spf13/pflag, spf13/cast and spf13/viper as far as
    [cmd/root.go] relies on it. *)

(** A configuration value as spf13/cast sees it when asked for an [int]. *)
Inductive Value : Type :=
| IntValue (n : Z)         (* an integer, or text that converts to the int [n] *)
| OtherValue (s : string). (* any value the conversion to [int] fails on *)

(** [cast.ToInt]: the conversion error is dropped and 0 returned. *)
Definition cast_ToInt (v : Value) : Z :=
  match v with
  | IntValue n => n
  | OtherValue _ => 0
  end.

(** A pflag flag: its name, default, current value, and whether the command
    line set it. *)
Record Flag : Type := mkFlag {
  flag_name : string;
  flag_default : Value;
  flag_value : Value;
  flag_changed : bool
}.

(** A freshly declared flag holds its default. *)
Definition new_flag (name : string) (def : Value) : Flag :=
  mkFlag name def def false.

Fixpoint flag_lookup (fs : list Flag) (name : string) : option Flag :=
  match fs with
  | [] => None
  | f :: rest =>
      if String.eqb (flag_name f) name then Some f else flag_lookup rest name
  end.

(** Setting a flag from the command line. *)
Fixpoint flag_set (fs : list Flag) (name : string) (v : Value) : list Flag :=
  match fs with
  | [] => []
  | f :: rest =>
      if String.eqb (flag_name f) name
      then mkFlag (flag_name f) (flag_default f) v true :: rest
      else f :: flag_set rest name v
  end.

Fixpoint assoc_lookup {A : Type} (kvs : list (string * A)) (k : string)
  : option A :=
  match kvs with
  | [] => None
  | (k', v) :: rest => if String.eqb k' k then Some v else assoc_lookup rest k
  end.

Definition upper_ascii (c : ascii) : ascii :=
  let n := nat_of_ascii c in
  if (Nat.leb 97 n && Nat.leb n 122)%bool then ascii_of_nat (n - 32) else c.

(** [strings.ToUpper] on ASCII text. *)
Fixpoint ToUpper (s : string) : string :=
  match s with
  | EmptyString => EmptyString
  | String c rest => String (upper_ascii c) (ToUpper rest)
  end.

Module viper.

(** The state of the viper singleton that [cmd/root.go] touches. *)
Record t : Type := mk {
  configFile : string;             (* SetConfigFile *)
  configPaths : list string;       (* AddConfigPath *)
  configName : string;             (* SetConfigName *)
  automaticEnv : bool;             (* AutomaticEnv *)
  pflags : list (string * string); (* BindPFlag: key, name of the flag *)
  config : list (string * Value);  (* what ReadInConfig loaded *)
  configFileUsed : string          (* ConfigFileUsed *)
}.

Definition empty : t := mk "" [] "config" false [] [] "".

Definition SetConfigFile (v : t) (f : string) : t :=
  mk f (configPaths v) (configName v) (automaticEnv v) (pflags v)
     (config v) (configFileUsed v).

Definition AddConfigPath (v : t) (p : string) : t :=
  mk (configFile v) (configPaths v ++ [p]) (configName v) (automaticEnv v)
     (pflags v) (config v) (configFileUsed v).

Definition SetConfigName (v : t) (n : string) : t :=
  mk (configFile v) (configPaths v) n (automaticEnv v) (pflags v)
     (config v) (configFileUsed v).

Definition AutomaticEnv (v : t) : t :=
  mk (configFile v) (configPaths v) (configName v) true (pflags v)
     (config v) (configFileUsed v).

Definition BindPFlag (v : t) (key flag : string) : t :=
  mk (configFile v) (configPaths v) (configName v) (automaticEnv v)
     (pflags v ++ [(key, flag)]) (config v) (configFileUsed v).

(** What the file system answers to [ReadInConfig]: the file that was read
    and its settings, or the error (not found, unreadable, malformed). *)
Inductive ReadResult : Type :=
| ReadOk (file : string) (settings : list (string * Value))
| ReadErr (msg : string).

(** [ReadInConfig]: on success the settings and the file name are stored;
    on failure the singleton is left as it was and the error returned. *)
Definition ReadInConfig (read : t -> ReadResult) (v : t) : t * error :=
  match read v with
  | ReadOk file settings =>
      (mk (configFile v) (configPaths v) (configName v) (automaticEnv v)
          (pflags v) settings file, None)
  | ReadErr msg => (v, Some msg)
  end.

Definition ConfigFileUsed (v : t) : string := configFileUsed v.

(** The environment is consulted only under [AutomaticEnv], with the key in
    upper case; a variable that is set but empty counts as unset (viper
    does not allow empty environment values unless told to). *)
Definition getEnv (environ : list (string * Value)) (v : t) (key : string)
  : option Value :=
  if automaticEnv v then
    match assoc_lookup environ (ToUpper key) with
    | Some (OtherValue EmptyString) => None
    | x => x
    end
  else None.

(** [Get], in viper's order of precedence: a bound flag set on the command
    line, then the environment, then the configuration file, then the
    default of a bound flag. *)
Definition Get (flags : list Flag) (environ : list (string * Value))
    (v : t) (key : string) : option Value :=
  let bound :=
    match assoc_lookup (pflags v) key with
    | Some name => flag_lookup flags name
    | None => None
    end in
  match bound with
  | Some f =>
      if flag_changed f then Some (flag_value f) else
      match getEnv environ v key with
      | Some x => Some x
      | None =>
          match assoc_lookup (config v) key with
          | Some x => Some x
          | None => Some (flag_default f)
          end
      end
  | None =>
      match getEnv environ v key with
      | Some x => Some x
      | None => assoc_lookup (config v) key
      end
  end.

(** [GetInt key] is [cast.ToInt (Get key)]; a missing key gives 0. *)
Definition GetInt (flags : list Flag) (environ : list (string * Value))
    (v : t) (key : string) : Z :=
  match Get flags environ v key with
  | Some x => cast_ToInt x
  | None => 0
  end.

End viper.

(* ------------------------------------------------------------------ *)
(** ** Package-level state of [cmd] and its surroundings *)

(** What the process finds around it: the home directory, the command line
    as cobra/pflag parsed it, the environment, and the file system's answer
    to viper's search for a configuration file. *)
Record World : Type := mkWorld {
  HomeDir : string;                        (* homedir.HomeDir() *)
  arg_config : string;                     (* --config; empty when absent *)
  arg_flags : list (string * Value);       (* the other flags that were given *)
  arg_error : error;                       (* the command line was rejected *)
  environ : list (string * Value);         (* os.Environ, keyed by name *)
  read_config : viper.t -> viper.ReadResult
}.

(** The package-level variables: [cfgFile], the two flag sets of [rootCmd],
    the viper singleton; and what was written to standard output. *)
Record Globals : Type := mkGlobals {
  cfgFile : string;
  PersistentFlags : list Flag;
  Flags : list Flag;
  vp : viper.t;
  stdout : list string
}.

(** [filepath.Join] of path elements: empty elements are skipped (the final
    [Clean] of the result is not modelled). *)
Fixpoint filepath_Join (elems : list string) : string :=
  match elems with
  | [] => ""
  | e :: rest =>
      if String.eqb e "" then filepath_Join rest
      else match filepath_Join rest with
           | EmptyString => e
           | r => e ++ "/" ++ r
           end
  end.

(** [fmt.Println]: the operands separated by spaces, one line. *)
Definition Println (g : Globals) (operands : list string) : Globals :=
  mkGlobals (cfgFile g) (PersistentFlags g) (Flags g) (vp g)
            (stdout g ++ [String.concat " " operands])%list.

Definition with_viper (g : Globals) (v : viper.t) : Globals :=
  mkGlobals (cfgFile g) (PersistentFlags g) (Flags g) v (stdout g).

(** [func init()]: the flags of [rootCmd] and their viper bindings.  A string
    or boolean flag keeps its text as an [OtherValue]; the program reads none
    of them as an [int]. *)
Definition init (w : World) : Globals :=
  let persistent := [new_flag "config" (OtherValue "")] in
  let locals := [new_flag "toggle" (OtherValue "false")] in
  let kubehome := filepath_Join [HomeDir w; ".kube"; "config"] in
  let persistent :=
    (persistent ++ [new_flag "kubeconfig" (OtherValue kubehome)])%list in
  let v := viper.BindPFlag viper.empty "kubeconfig" "kubeconfig" in
  let persistent := (persistent ++ [new_flag "master" (OtherValue "")])%list in
  let v := viper.BindPFlag v "master" "master" in
  let locals := (locals ++ [new_flag "resync-seconds" (IntValue 30)])%list in
  let v := viper.BindPFlag v "resync-seconds" "resync-seconds" in
  mkGlobals "" persistent locals v [].

(** cobra parsing the command line into the flag sets; [--config] is bound
    to the variable [cfgFile]. *)
Definition parse_flags (w : World) (g : Globals) : Globals :=
  let set_all fs :=
    fold_left (fun acc kv => flag_set acc (fst kv) (snd kv)) (arg_flags w) fs in
  let persistent :=
    if String.eqb (arg_config w) "" then PersistentFlags g
    else flag_set (PersistentFlags g) "config" (OtherValue (arg_config w)) in
  mkGlobals (arg_config w) (set_all persistent) (set_all (Flags g))
            (vp g) (stdout g).

(** [func initConfig()]. *)
Definition initConfig (w : World) (g : Globals) : Globals :=
  let g :=
    if negb (String.eqb (cfgFile g) "") then
      with_viper g (viper.SetConfigFile (vp g) (cfgFile g))
    else
      let home := HomeDir w in
      let g := with_viper g (viper.AddConfigPath (vp g) home) in
      with_viper g (viper.SetConfigName (vp g) ".node-labeler-operator") in
  let g := with_viper g (viper.AutomaticEnv (vp g)) in
  let '(v, err) := viper.ReadInConfig (read_config w) (vp g) in
  let g := with_viper g v in
  match err with
  | None => Println g ["Using config file:"; viper.ConfigFileUsed (vp g)]
  | Some _ => g
  end.

(** [viper.GetInt] as the package calls it: over all flags of [rootCmd]. *)
Definition GetInt (w : World) (g : Globals) (key : string) : Z :=
  viper.GetInt (PersistentFlags g ++ Flags g)%list (environ w) (vp g) key.

(* ------------------------------------------------------------------ *)
(** ** Signals, channels and the two goroutines of [run] *)

(** Operating-system signals ([syscall.Signal]). *)
Inductive Signal : Type :=
| SIGHUP | SIGINT | SIGQUIT | SIGUSR1 | SIGUSR2 | SIGPIPE | SIGTERM.

Definition Signal_eqb (a b : Signal) : bool :=
  match a, b with
  | SIGHUP, SIGHUP | SIGINT, SIGINT | SIGQUIT, SIGQUIT | SIGUSR1, SIGUSR1
  | SIGUSR2, SIGUSR2 | SIGPIPE, SIGPIPE | SIGTERM, SIGTERM => true
  | _, _ => false
  end.

Definition subscribed (sigs : list Signal) (sg : Signal) : bool :=
  existsb (Signal_eqb sg) sigs.

(** A Go channel: capacity, buffered elements (oldest first), closed bit. *)
Record Chan (A : Type) : Type := mkChan {
  cap : nat;
  buf : list A;
  closed : bool
}.
Arguments mkChan {A} _ _ _.
Arguments cap {A} _.
Arguments buf {A} _.
Arguments closed {A} _.

(** [make(chan A, n)]; [make(chan A)] is [make_chan 0]. *)
Definition make_chan {A : Type} (n : nat) : Chan A := mkChan n [] false.

(** A send can complete without a receiver only while the buffer has room. *)
Definition has_room {A : Type} (c : Chan A) : bool :=
  Nat.ltb (List.length (buf c)) (cap c).

Definition push {A : Type} (c : Chan A) (x : A) : Chan A :=
  mkChan (cap c) (buf c ++ [x])%list (closed c).

Definition drop_head {A : Type} (c : Chan A) : Chan A :=
  mkChan (cap c) (tl (buf c)) (closed c).

(** [applogger.Std]: the logger; its output is collected in the state. *)
Inductive Logger : Type := Std.

(** The goroutine of [run] itself: blocked in the [select], or returned. *)
Inductive MainPC : Type :=
| AtSelect
| Returned (ret : error).

(** The goroutine [go func() { finishC <- op.Run(stopC) }()]: inside
    [op.Run], blocked in the send of its result, or past the send. *)
Inductive GoPC : Type :=
| Running
| Sending (r : error)
| Finished.

Record State : Type := mkState {
  pc_main : MainPC;
  pc_go : GoPC;
  stopC : Chan unit;
  finishC : Chan error;
  signalC : Chan Signal;
  notify : list Signal;     (* signal.Notify(signalC, ...) *)
  log : list string         (* logger.Infof *)
}.

(** The state once [run] has reached its [select] (lines 121-129). *)
Definition start : State :=
  let stopC := make_chan 0 in
  let finishC := make_chan 0 in
  let signalC := make_chan 1 in
  let notify := [SIGTERM; SIGINT] in
  mkState AtSelect Running stopC finishC signalC notify [].

(** What can happen next. *)
Inductive Event : Type :=
| OpReturns (r : error)   (* [op.Run(stopC)] returns [r] in its goroutine *)
| SendBuffered            (* the goroutine's send completes into the buffer *)
| Deliver (sg : Signal)   (* the operating system raises [sg] *)
| SelectFinish            (* the select takes [case err := <-finishC] *)
| SelectSignal.           (* the select takes [case <-signalC] *)

(** Lines 132-135 and 139: the [finishC] case. *)
Definition after_finish (err : error) : MainPC :=
  match err with
  | Some e => Returned (Some e)
  | None => Returned None
  end.

(** One transition; [None] when the event cannot happen in this state.
    - os/signal sends a subscribed signal without blocking: it is buffered
      if there is room and dropped otherwise; other signals never reach
      [signalC] (what the Go runtime does with them by default is outside
      [run] and not modelled).
    - An unbuffered send completes only together with the receive. *)
Definition step (s : State) (e : Event) : option State :=
  match e with
  | OpReturns r =>
      match pc_go s with
      | Running =>
          Some (mkState (pc_main s) (Sending r) (stopC s) (finishC s)
                        (signalC s) (notify s) (log s))
      | _ => None
      end
  | SendBuffered =>
      match pc_go s with
      | Sending r =>
          if has_room (finishC s) then
            Some (mkState (pc_main s) Finished (stopC s) (push (finishC s) r)
                          (signalC s) (notify s) (log s))
          else None
      | _ => None
      end
  | Deliver sg =>
      if subscribed (notify s) sg && has_room (signalC s) then
        Some (mkState (pc_main s) (pc_go s) (stopC s) (finishC s)
                      (push (signalC s) sg) (notify s) (log s))
      else Some s
  | SelectFinish =>
      match pc_main s with
      | AtSelect =>
          match buf (finishC s) with
          | err :: _ =>
              Some (mkState (after_finish err) (pc_go s) (stopC s)
                            (drop_head (finishC s)) (signalC s) (notify s)
                            (log s))
          | [] =>
              match pc_go s with
              | Sending err =>
                  Some (mkState (after_finish err) Finished (stopC s)
                                (finishC s) (signalC s) (notify s) (log s))
              | _ => None
              end
          end
      | Returned _ => None
      end
  | SelectSignal =>
      match pc_main s with
      | AtSelect =>
          match buf (signalC s) with
          | _ :: _ =>
              Some (mkState (Returned None) (pc_go s) (stopC s) (finishC s)
                            (drop_head (signalC s)) (notify s)
                            (log s ++ ["Signal captured, exiting..."])%list)
          | [] => None
          end
      | Returned _ => None
      end
  end.

(** Running a schedule. *)
Fixpoint exec (s : State) (sched : list Event) : option State :=
  match sched with
  | [] => Some s
  | e :: rest =>
      match step s e with
      | Some s' => exec s' rest
      | None => None
      end
  end.

(** What [run] has done when the schedule ends. *)
Inductive Outcome : Type :=
| Returns (ret : error)
| Blocked.

Definition outcome_of (s : State) : Outcome :=
  match pc_main s with
  | Returned r => Returns r
  | AtSelect => Blocked
  end.

(* ------------------------------------------------------------------ *)
(** ** The collaborators of [run] that live outside [cmd/root.go] *)

(** [GetKubernetesClients], declared in another file of package [cmd]: it
    may consult the package-level state and the surroundings, and returns
    the three clients and an error. *)
Record ClientsFile : Type := mkClientsFile {
  NodeLabelerClient : Type;
  CRDClient : Type;
  KubeClient : Type;
  GetKubernetesClients :
    World -> Globals -> Logger ->
    NodeLabelerClient * CRDClient * KubeClient * error
}.

(** Modelled from the spec: package [operator] ([operator.NewOperatorConfig],
    [operator.New] and the operator they build) is not among the sources.
    Following the spec, the operator "receives client and logger
    capabilities as constructor arguments, never reads global state", and its
    configuration is made of the resync interval alone: both constructors
    are functions of their arguments and of nothing else.  [Run(stopSignal)]
    of the operator is the goroutine [GoPC] above. *)
Record OperatorPackage (C : ClientsFile) : Type := mkOperatorPackage {
  OperatorConfig : Type;
  Operator : Type;
  NewOperatorConfig : time.Duration -> OperatorConfig;
  New :
    OperatorConfig -> NodeLabelerClient C -> CRDClient C -> KubeClient C ->
    Logger -> Operator * error
}.
Arguments OperatorConfig {C} _.
Arguments Operator {C} _.
Arguments NewOperatorConfig {C} _ _.
Arguments New {C} _ _ _ _ _ _.

Section Cmd.

Variable C : ClientsFile.
Variable O : OperatorPackage C.

(** The calls [run] makes to its collaborators, in program order. *)
Inductive Call : Type :=
| CallGetKubernetesClients (logger : Logger)
| CallNewOperatorConfig (resync : time.Duration)
| CallNew (oconfig : OperatorConfig O) (nlCli : NodeLabelerClient C)
          (crdCli : CRDClient C) (k8sCli : KubeClient C) (logger : Logger)
| CallRun (op : Operator O).   (* [op.Run(stopC)], in its own goroutine *)

Record Result : Type := mkResult {
  calls : list Call;
  outcome : Outcome;
  final : option State     (* the goroutines, once they were started *)
}.

(** [func run(cmd *cobra.Command, args []string) error], along a schedule of
    the events that follow the start of the operator goroutine.  [None]: the
    schedule asks for an event that cannot happen. *)
Definition run (w : World) (g : Globals) (sched : list Event)
  : option Result :=
  let logger := Std in
  let '(nlCli, crdCli, k8sCli, err) := GetKubernetesClients C w g logger in
  let calls := [CallGetKubernetesClients logger] in
  match err with
  | Some e => Some (mkResult calls (Returns (Some e)) None)
  | None =>
      let resync :=
        time.mul (time.of_int (GetInt w g "resync-seconds")) time.Second in
      let oconfig := NewOperatorConfig O resync in
      let '(op, err) := New O oconfig nlCli crdCli k8sCli logger in
      let calls :=
        (calls ++ [CallNewOperatorConfig resync;
                   CallNew oconfig nlCli crdCli k8sCli logger])%list in
      match err with
      | Some e => Some (mkResult calls (Returns (Some e)) None)
      | None =>
          match exec start sched with
          | Some s =>
              Some (mkResult (calls ++ [CallRun op])%list (outcome_of s)
                             (Some s))
          | None => None
          end
      end
  end.

(** How the process ends. *)
Inductive Exit : Type :=
| Exited (code : Z)     (* os.Exit(code) *)
| BackInMain            (* Execute returned to main.main *)
| StillRunning.         (* run is blocked in its select *)

Record Process : Type := mkProcess {
  printed : list string;
  exit : Exit
}.

(** [rootCmd.Execute()]: cobra rejects a bad command line before anything
    runs; otherwise it runs the initializer registered by
    [cobra.OnInitialize(initConfig)], then [RunE: run], and returns its
    error.  (What cobra itself prints is not modelled.) *)
Definition rootCmd_Execute (w : World) (g : Globals) (sched : list Event)
  : option (Globals * Outcome) :=
  match arg_error w with
  | Some e => Some (g, Returns (Some e))
  | None =>
      let g := parse_flags w g in
      let g := initConfig w g in
      match run w g sched with
      | Some r => Some (g, outcome r)
      | None => None
      end
  end.

(** [func Execute()], after [func init()]. *)
Definition Execute (w : World) (sched : list Event) : option Process :=
  let g := init w in
  match rootCmd_Execute w g sched with
  | Some (g, Returns (Some err)) =>
      let g := Println g [err] in
      Some (mkProcess (stdout g) (Exited 1))
  | Some (g, Returns None) => Some (mkProcess (stdout g) BackInMain)
  | Some (g, Blocked) => Some (mkProcess (stdout g) StillRunning)
  | None => None
  end.

End Cmd.

Arguments run {C} O w g sched.
Arguments Execute {C} O w sched.
Arguments rootCmd_Execute {C} O w g sched.
Arguments CallGetKubernetesClients {C O} logger.
Arguments CallNewOperatorConfig {C O} resync.
Arguments CallNew {C O} oconfig nlCli crdCli k8sCli logger.
Arguments CallRun {C O} op.
Arguments calls {C O} _.
Arguments outcome {C O} _.
Arguments final {C O} _.

(* ------------------------------------------------------------------ *)
(** ** Concrete surroundings, used to run the model *)

Definition demo_clients : ClientsFile :=
  mkClientsFile string string string
    (fun _ _ _ => ("nodelabeler", "crd", "kubernetes", None)).

Definition failing_clients : ClientsFile :=
  mkClientsFile string string string
    (fun _ _ _ => ("", "", "", Some "no kubeconfig")).

Definition operator_without_clients : OperatorPackage failing_clients :=
  mkOperatorPackage failing_clients time.Duration string
    (fun d => d) (fun _ _ _ _ _ => ("operator", None)).

Definition demo_operator : OperatorPackage demo_clients :=
  mkOperatorPackage demo_clients time.Duration string
    (fun d => d) (fun _ _ _ _ _ => ("operator", None)).

Definition failing_operator : OperatorPackage demo_clients :=
  mkOperatorPackage demo_clients time.Duration string
    (fun d => d) (fun _ _ _ _ _ => ("", Some "cannot create operator")).

(** No configuration file, nothing on the command line or in the
    environment. *)
Definition demo_world : World :=
  mkWorld "/root" "" [] None []
    (fun _ => viper.ReadErr "Config File Not Found").

(** The command line carries [--resync-seconds=n]. *)
Definition world_with_resync (n : Z) : World :=
  mkWorld "/root" "" [("resync-seconds", IntValue n)] None []
    (fun _ => viper.ReadErr "Config File Not Found").

(** A configuration file in the home directory sets [resync-seconds]. *)
Definition world_with_config (n : Z) : World :=
  mkWorld "/root" "" [] None []
    (fun _ => viper.ReadOk "/root/.node-labeler-operator.yaml"
                           [("resync-seconds", IntValue n)]).

(** The environment sets [RESYNC-SECONDS] to text that is no integer, and
    the configuration file sets the key as well. *)
Definition world_with_env : World :=
  mkWorld "/root" "" [] None [("RESYNC-SECONDS", OtherValue "soon")]
    (fun _ => viper.ReadOk "/root/.node-labeler-operator.yaml"
                           [("resync-seconds", IntValue 10)]).

(** The command line names a configuration file with [--config]; the file
    system finds it and it sets nothing. *)
Definition world_with_config_flag (file : string) : World :=
  mkWorld "/root" file [] None [] (fun v => viper.ReadOk (viper.configFile v) []).

(** The package-level state [run] finds: after [init], the command line and
    [initConfig]. *)
Definition configured (w : World) : Globals :=
  initConfig w (parse_flags w (init w)).

(* ------------------------------------------------------------------ *)
(** ** Facts about schedules *)

Definition is_select (e : Event) : bool :=
  match e with
  | SelectFinish | SelectSignal => true
  | _ => false
  end.

(** What holds of every state of [run]'s goroutines: [stopC] and [finishC]
    are as [make] left them, the subscription is the one of line 124, and
    [signalC] is open with capacity 1. *)
Record Reachable (s : State) : Prop := mkReachable {
  r_stopC : stopC s = make_chan 0;
  r_finishC : finishC s = make_chan 0;
  r_notify : notify s = [SIGTERM; SIGINT];
  r_cap : cap (signalC s) = 1%nat;
  r_closed : closed (signalC s) = false;
  r_len : (List.length (buf (signalC s)) <= 1)%nat
}.

(** [run] has told the operator to stop: [stopC] is closed, or something was
    sent on it. *)
Definition stop_propagated (s : State) : bool :=
  closed (stopC s) || negb (Nat.eqb (List.length (buf (stopC s))) 0).

(** [op.Run] has returned. *)
Definition operator_returned (s : State) : bool :=
  match pc_go s with
  | Running => false
  | Sending _ | Finished => true
  end.

(** The operator goroutine sits in [finishC <- ...] and no continuation of
    the execution lets the send complete. *)
Definition blocked_forever (s : State) : Prop :=
  exists r, pc_go s = Sending r /\
            forall more s', exec s more = Some s' -> pc_go s' = Sending r.

(** The first signal of the schedule that [signal.Notify] subscribed to. *)
Fixpoint first_subscribed (sched : list Event) : option Signal :=
  match sched with
  | [] => None
  | Deliver sg :: rest =>
      if subscribed [SIGTERM; SIGINT] sg then Some sg
      else first_subscribed rest
  | _ :: rest => first_subscribed rest
  end.

(** [n] seconds can be held by a [time.Duration]. *)
Definition fits_seconds (n : Z) : Prop :=
  time.min_int64 <= n * time.Second <= time.max_int64.

(** The interval of line 115:
    [time.Duration(viper.GetInt("resync-seconds")) * time.Second]. *)
Definition resync_interval (w : World) (g : Globals) : time.Duration :=
  time.mul (time.of_int (GetInt w g "resync-seconds")) time.Second.

(** One of the three fallible steps of [run] fails with [e]: the clients,
    the construction of the operator, or [op.Run] when the select takes its
    result from [finishC]. *)
Definition fails_with {C : ClientsFile} (O : OperatorPackage C) (w : World)
    (g : Globals) (sched : list Event) (e : string) : Prop :=
  let '(nlCli, crdCli, k8sCli, err) := GetKubernetesClients C w g Std in
  match err with
  | Some e' => e' = e
  | None =>
      let oconfig := NewOperatorConfig O (resync_interval w g) in
      match snd (New O oconfig nlCli crdCli k8sCli Std) with
      | Some e' => e' = e
      | None => In (OpReturns (Some e)) sched /\ In SelectFinish sched
      end
  end.

Definition no_select (sched : list Event) : bool :=
  forallb (fun e => negb (is_select e)) sched.

Lemma start_Reachable : Reachable start.
Proof. constructor; simpl; auto. Qed.

Lemma step_Reachable (s s' : State) (e : Event) :
  Reachable s -> step s e = Some s' -> Reachable s'.
Proof.
  intros [H1 H2 H3 H4 H5 H6] Hs.
  destruct e; simpl in Hs.
  - destruct (pc_go s); inversion Hs; subst; constructor; simpl; auto.
  - destruct (pc_go s); try discriminate.
    rewrite H2 in Hs. simpl in Hs. discriminate.
  - destruct (subscribed (notify s) sg && has_room (signalC s)) eqn:E.
    + inversion Hs; subst; constructor; simpl; auto.
      apply andb_prop in E. destruct E as [_ E].
      unfold has_room in E. apply Nat.ltb_lt in E.
      rewrite length_app. simpl. lia.
    + inversion Hs; subst; constructor; auto.
  - destruct (pc_main s); try discriminate.
    rewrite H2 in Hs. simpl in Hs.
    destruct (pc_go s); inversion Hs; subst; constructor; simpl; auto.
  - destruct (pc_main s); try discriminate.
    destruct (buf (signalC s)) as [|x l] eqn:E; inversion Hs; subst.
    constructor; simpl; auto.
    rewrite E in *. simpl in *. lia.
Qed.

Lemma exec_Reachable (sched : list Event) :
  forall s s', Reachable s -> exec s sched = Some s' -> Reachable s'.
Proof.
  induction sched as [|e rest IH]; simpl; intros s s' Hr He.
  - inversion He; subst; assumption.
  - destruct (step s e) as [s1|] eqn:E; try discriminate.
    eapply IH; [eapply step_Reachable; eassumption | eassumption].
Qed.

Lemma exec_app (a b : list Event) :
  forall s, exec s (a ++ b) =
            match exec s a with Some s' => exec s' b | None => None end.
Proof.
  induction a as [|e a IH]; simpl; intros s; [reflexivity|].
  destruct (step s e); [apply IH | reflexivity].
Qed.

(** Splitting an execution at one of its events. *)
Lemma exec_split (pre post : list Event) (e : Event) (s s' : State) :
  exec s (pre ++ e :: post) = Some s' ->
  exists s1 s2,
    exec s pre = Some s1 /\ step s1 e = Some s2 /\ exec s2 post = Some s'.
Proof.
  rewrite exec_app. destruct (exec s pre) as [s1|]; try discriminate.
  simpl. destruct (step s1 e) as [s2|] eqn:E; try discriminate.
  intros H. exists s1, s2. auto.
Qed.

(** Once [run] has returned, its result stands and no select fires. *)
Lemma step_Returned (s s' : State) (e : Event) (r : error) :
  pc_main s = Returned r -> step s e = Some s' ->
  pc_main s' = Returned r /\ is_select e = false.
Proof.
  intros Hm Hs. destruct e; simpl in Hs.
  - destruct (pc_go s); inversion Hs; subst; auto.
  - destruct (pc_go s); try discriminate.
    destruct (has_room (finishC s)); inversion Hs; subst; auto.
  - destruct (subscribed (notify s) sg && has_room (signalC s));
      inversion Hs; subst; auto.
  - rewrite Hm in Hs. discriminate.
  - rewrite Hm in Hs. discriminate.
Qed.

Lemma exec_Returned (sched : list Event) :
  forall s s' r,
    pc_main s = Returned r -> exec s sched = Some s' ->
    pc_main s' = Returned r /\ no_select sched = true.
Proof.
  induction sched as [|e rest IH]; simpl; intros s s' r Hm He.
  - inversion He; subst; auto.
  - destruct (step s e) as [s1|] eqn:E; try discriminate.
    destruct (step_Returned _ _ _ _ Hm E) as [Hm1 Hsel].
    destruct (IH _ _ _ Hm1 He) as [Hm' Hall].
    rewrite Hsel, Hall. auto.
Qed.

(** A select that fires finds [run] in its [select] and makes it return. *)
Lemma step_select (s s' : State) (e : Event) :
  is_select e = true -> step s e = Some s' ->
  pc_main s = AtSelect /\ exists r, pc_main s' = Returned r.
Proof.
  intros Hsel Hs. destruct e; try discriminate; simpl in Hs.
  - destruct (pc_main s); try discriminate. split; [reflexivity|].
    destruct (buf (finishC s)) as [|err l].
    + destruct (pc_go s) as [|err|]; try discriminate.
      inversion Hs; subst; simpl. destruct err; simpl; eauto.
    + inversion Hs; subst; simpl. destruct err; simpl; eauto.
  - destruct (pc_main s); try discriminate. split; [reflexivity|].
    destruct (buf (signalC s)); inversion Hs; subst; simpl; eauto.
Qed.

Lemma step_SelectSignal (s s' : State) :
  step s SelectSignal = Some s' ->
  pc_main s' = Returned None /\ pc_go s' = pc_go s /\
  log s' = (log s ++ ["Signal captured, exiting..."])%list.
Proof.
  simpl. destruct (pc_main s); try discriminate.
  destruct (buf (signalC s)); intros H; inversion H; subst; simpl; auto.
Qed.

(** While [run] waits in its [select], nothing that happened contained a
    select. *)
Lemma exec_AtSelect (sched : list Event) :
  forall s s',
    exec s sched = Some s' -> pc_main s' = AtSelect ->
    no_select sched = true.
Proof.
  induction sched as [|e rest IH]; simpl; intros s s' He Hm; [reflexivity|].
  destruct (step s e) as [s1|] eqn:E; try discriminate.
  destruct (is_select e) eqn:Hsel; simpl.
  - destruct (step_select _ _ _ Hsel E) as [_ [r Hr]].
    destruct (exec_Returned _ _ _ _ Hr He) as [Hm' _]. congruence.
  - eapply IH; eassumption.
Qed.

(** The select taking the signal case makes [run] return [nil], after the
    log line. *)
Lemma exec_signal_received (sched : list Event) (s0 s : State) :
  exec s0 sched = Some s -> In SelectSignal sched ->
  pc_main s = Returned None /\ In "Signal captured, exiting..." (log s).
Proof.
  intros He Hin.
  destruct (in_split _ _ Hin) as [pre [post Heq]]. subst sched.
  destruct (exec_split _ _ _ _ _ He) as [s1 [s2 [H1 [H2 H3]]]].
  destruct (step_SelectSignal _ _ H2) as [Hm [_ Hl]].
  destruct (exec_Returned _ _ _ _ Hm H3) as [Hm' _].
  split; [assumption|].
  assert (Hmono : forall sch a b, exec a sch = Some b ->
                  forall x, In x (log a) -> In x (log b)).
  { clear. induction sch as [|e rest IH]; simpl; intros a b Hab x Hx.
    - inversion Hab; subst; assumption.
    - destruct (step a e) as [a1|] eqn:E; try discriminate.
      apply (IH _ _ Hab). clear IH Hab.
      destruct e; simpl in E.
      + destruct (pc_go a); inversion E; subst; assumption.
      + destruct (pc_go a); try discriminate.
        destruct (has_room (finishC a)); inversion E; subst; assumption.
      + destruct (subscribed (notify a) sg && has_room (signalC a));
          inversion E; subst; assumption.
      + destruct (pc_main a); try discriminate.
        destruct (buf (finishC a)).
        * destruct (pc_go a); inversion E; subst; assumption.
        * inversion E; subst; assumption.
      + destruct (pc_main a); try discriminate.
        destruct (buf (signalC a)); inversion E; subst; simpl.
        apply in_or_app. left. assumption. }
  apply (Hmono _ _ _ H3). rewrite Hl. apply in_or_app. right. simpl. auto.
Qed.

(** No state of [run] has a stop channel that was closed or written to. *)
Lemma Reachable_stop_not_propagated (s : State) :
  Reachable s -> stop_propagated s = false.
Proof.
  intros [H _ _ _ _ _]. unfold stop_propagated. rewrite H. reflexivity.
Qed.

(** Before the select fires the operator goroutine is not past its send. *)
Lemma exec_AtSelect_not_Finished (sched : list Event) :
  forall s s',
    Reachable s -> (pc_main s = AtSelect -> pc_go s <> Finished) ->
    exec s sched = Some s' ->
    pc_main s' = AtSelect -> pc_go s' <> Finished.
Proof.
  induction sched as [|e rest IH]; simpl; intros s s' Hr Hn He.
  - inversion He; subst; assumption.
  - destruct (step s e) as [s1|] eqn:E; try discriminate.
    apply (IH s1 s' (step_Reachable _ _ _ Hr E)); [|assumption].
    clear IH He. intros Hm1.
    destruct (is_select e) eqn:Hsel.
    + destruct (step_select _ _ _ Hsel E) as [_ [r Hret]]. congruence.
    + destruct Hr as [_ Hf _ _ _ _].
      destruct e; try discriminate; simpl in E.
      * destruct (pc_go s); inversion E; subst; simpl; discriminate.
      * destruct (pc_go s); try discriminate.
        rewrite Hf in E. simpl in E. discriminate.
      * destruct (subscribed (notify s) sg && has_room (signalC s));
          inversion E; subst; simpl in *; auto.
Qed.

(** After [run] has returned nobody receives from [finishC]: the goroutine
    never gets past its send, and a send that has begun stays pending. *)
Lemma exec_after_return (sched : list Event) :
  forall s s' ret,
    Reachable s -> pc_main s = Returned ret -> pc_go s <> Finished ->
    exec s sched = Some s' ->
    pc_go s' <> Finished /\
    (forall x, pc_go s = Sending x -> pc_go s' = Sending x).
Proof.
  induction sched as [|e rest IH]; simpl; intros s s' ret Hr Hm Hn He.
  - inversion He; subst; auto.
  - destruct (step s e) as [s1|] eqn:E; try discriminate.
    destruct (step_Returned _ _ _ _ Hm E) as [Hm1 Hsel].
    assert (Hgo : pc_go s1 <> Finished /\
                  (forall x, pc_go s = Sending x -> pc_go s1 = Sending x)).
    { destruct Hr as [_ Hf _ _ _ _].
      destruct e; try discriminate; simpl in E.
      - destruct (pc_go s) eqn:G; inversion E; subst; simpl.
        split; [discriminate | intros x Hx; discriminate].
      - destruct (pc_go s); try discriminate.
        rewrite Hf in E. simpl in E. discriminate.
      - destruct (subscribed (notify s) sg && has_room (signalC s));
          inversion E; subst; simpl; auto. }
    destruct Hgo as [Hn1 Hkeep].
    destruct (IH s1 s' ret (step_Reachable _ _ _ Hr E) Hm1 Hn1 He)
      as [Hn' Hkeep'].
    split; [assumption|]. intros x Hx. apply Hkeep'. apply Hkeep. assumption.
Qed.

(** The goroutines of a [run] that got as far as starting them. *)
Lemma run_started (C : ClientsFile) (O : OperatorPackage C) (w : World)
    (g : Globals) (sched : list Event) (r : Result C O) (s : State) :
  run O w g sched = Some r -> final r = Some s ->
  exec start sched = Some s /\ outcome r = outcome_of s.
Proof.
  unfold run.
  destruct (GetKubernetesClients C w g Std) as [[[nl crd] k8s] [e|]].
  - intros H; inversion H; subst; simpl; discriminate.
  - destruct (New O _ nl crd k8s Std) as [op [e|]].
    + intros H; inversion H; subst; simpl; discriminate.
    + destruct (exec start sched) as [s1|]; try discriminate.
      intros H; inversion H; subst; simpl.
      intros H1; inversion H1; subst; auto.
Qed.

(* ------------------------------------------------------------------ *)
(** ** The model at work *)

Example init_resync_flag :
  flag_lookup (Flags (init demo_world)) "resync-seconds"
  = Some (mkFlag "resync-seconds" (IntValue 30) (IntValue 30) false).
Proof. reflexivity. Qed.

Example init_kubeconfig_flag :
  flag_lookup (PersistentFlags (init demo_world)) "kubeconfig"
  = Some (new_flag "kubeconfig" (OtherValue "/root/.kube/config")).
Proof. reflexivity. Qed.

Example initConfig_searches_home :
  viper.configPaths (vp (configured demo_world)) = ["/root"] /\
  viper.configName (vp (configured demo_world)) = ".node-labeler-operator" /\
  viper.automaticEnv (vp (configured demo_world)) = true.
Proof. repeat split; reflexivity. Qed.

Example initConfig_prints_on_success :
  stdout (configured (world_with_config 10))
  = ["Using config file: /root/.node-labeler-operator.yaml"].
Proof. reflexivity. Qed.

Example GetInt_from_config :
  GetInt (world_with_config 10) (configured (world_with_config 10))
         "resync-seconds" = 10.
Proof. reflexivity. Qed.

Example GetInt_env_before_config :
  GetInt world_with_env (configured world_with_env) "resync-seconds" = 0.
Proof. reflexivity. Qed.

Example GetInt_empty_env_is_unset :
  GetInt (mkWorld "/root" "" [] None [("RESYNC-SECONDS", OtherValue "")]
                  (read_config (world_with_config 10)))
         (configured
            (mkWorld "/root" "" [] None [("RESYNC-SECONDS", OtherValue "")]
                     (read_config (world_with_config 10))))
         "resync-seconds" = 10.
Proof. reflexivity. Qed.

Example GetInt_flag_first :
  GetInt (world_with_resync 5) (configured (world_with_resync 5))
         "resync-seconds" = 5.
Proof. reflexivity. Qed.

Example seconds_30 : time.mul (time.of_int 30) time.Second = 30000000000.
Proof. reflexivity. Qed.

Example run_blocks_in_select :
  option_map outcome
    (run demo_operator demo_world (configured demo_world) [OpReturns None])
  = Some Blocked.
Proof. reflexivity. Qed.

Example run_operator_finishes :
  option_map outcome
    (run demo_operator demo_world (configured demo_world)
         [OpReturns None; SelectFinish])
  = Some (Returns None).
Proof. reflexivity. Qed.

Example run_no_second_select :
  run demo_operator demo_world (configured demo_world)
      [Deliver SIGINT; OpReturns None; SelectSignal; SelectFinish] = None.
Proof. reflexivity. Qed.

Example run_without_clients :
  run operator_without_clients demo_world (configured demo_world) []
  = Some (mkResult failing_clients operator_without_clients
            [CallGetKubernetesClients Std]
            (Returns (Some "no kubeconfig")) None).
Proof. reflexivity. Qed.

Example Execute_without_clients :
  Execute operator_without_clients demo_world []
  = Some (mkProcess ["no kubeconfig"] (Exited 1)).
Proof. reflexivity. Qed.

Example Execute_without_operator :
  Execute failing_operator demo_world []
  = Some (mkProcess ["cannot create operator"] (Exited 1)).
Proof. reflexivity. Qed.

Example second_signal_dropped :
  option_map (fun s => buf (signalC s))
             (exec start [Deliver SIGTERM; Deliver SIGINT])
  = Some [SIGTERM].
Proof. reflexivity. Qed.

(* ------------------------------------------------------------------ *)
(** ** The outcome of [run] on the signal path *)

(** C1: in every execution of [run] whose select receives the stop signal
    from [signalC], [run] returns [nil], whatever the operator goroutine
    holds at that moment (a pending error included). *)
Theorem run_signal_returns_nil (C : ClientsFile) (O : OperatorPackage C)
    (w : World) (g : Globals) (sched : list Event) (r : Result C O)
    (s : State) :
  run O w g sched = Some r -> final r = Some s ->
  In SelectSignal sched ->
  outcome r = Returns None.
Proof.
  intros Hrun Hfin Hin.
  destruct (run_started _ _ _ _ _ _ _ Hrun Hfin) as [He Ho].
  destruct (exec_signal_received _ _ _ He Hin) as [Hm _].
  rewrite Ho. unfold outcome_of. rewrite Hm. reflexivity.
Qed.

Lemma run_signal_returns_nil_witness :
  exists r,
    run demo_operator demo_world (configured demo_world)
        [OpReturns (Some "initial listing failed"); Deliver SIGINT;
         SelectSignal] = Some r /\
    outcome r = Returns None.
Proof.
  eexists. split; [reflexivity|].
  eapply (run_signal_returns_nil demo_clients demo_operator demo_world
            (configured demo_world)
            [OpReturns (Some "initial listing failed"); Deliver SIGINT;
             SelectSignal]);
    [reflexivity | reflexivity | simpl; auto].
Defined.

(** C2, as the claim states it, fails: with SIGTERM delivered and received,
    [run] returns [nil] while the stop channel is still open and untouched
    and [op.Run] has not returned. *)
Lemma graceful_shutdown_counterexample :
  exists r s,
    run demo_operator demo_world (configured demo_world)
        [Deliver SIGTERM; SelectSignal] = Some r /\
    final r = Some s /\
    outcome r = Returns None /\
    stop_propagated s = false /\
    operator_returned s = false.
Proof.
  eexists. eexists.
  split; [reflexivity|]. split; [reflexivity|].
  repeat split; reflexivity.
Qed.

(** C2, amended: when the stop signal is received, [run] logs
    "Signal captured, exiting..." and returns [nil]; it does so whatever
    the operator goroutine is doing, leaving that goroutine as it is; and
    [run] never closes or sends on the stop channel it passed to [op.Run]. *)
Theorem run_signal_returns_without_stopping (C : ClientsFile)
    (O : OperatorPackage C) (w : World) (g : Globals) (sched : list Event)
    (r : Result C O) (s : State) :
  run O w g sched = Some r -> final r = Some s ->
  stop_propagated s = false /\
  (In SelectSignal sched ->
   outcome r = Returns None /\ In "Signal captured, exiting..." (log s)) /\
  (pc_main s = AtSelect -> buf (signalC s) <> [] ->
   exists s', step s SelectSignal = Some s' /\
              pc_main s' = Returned None /\
              pc_go s' = pc_go s /\
              stop_propagated s' = false).
Proof.
  intros Hrun Hfin.
  destruct (run_started _ _ _ _ _ _ _ Hrun Hfin) as [He Ho].
  pose proof (exec_Reachable _ _ _ start_Reachable He) as Hr.
  split; [apply Reachable_stop_not_propagated; assumption|].
  split.
  - intros Hin. destruct (exec_signal_received _ _ _ He Hin) as [Hm Hl].
    split; [|assumption].
    rewrite Ho. unfold outcome_of. rewrite Hm. reflexivity.
  - intros Hm Hb.
    destruct (step s SelectSignal) as [s'|] eqn:E.
    + exists s'. destruct (step_SelectSignal _ _ E) as [H1 [H2 _]].
      repeat split; auto.
      apply Reachable_stop_not_propagated.
      eapply step_Reachable; eassumption.
    + exfalso. simpl in E. rewrite Hm in E.
      destruct (buf (signalC s)); [apply Hb; reflexivity | discriminate].
Qed.

Lemma run_signal_returns_without_stopping_witness :
  exists r s,
    run demo_operator demo_world (configured demo_world)
        [Deliver SIGTERM; SelectSignal] = Some r /\
    final r = Some s /\
    stop_propagated s = false /\
    outcome r = Returns None.
Proof.
  eexists. eexists.
  split; [reflexivity|]. split; [reflexivity|].
  destruct (run_signal_returns_without_stopping demo_clients demo_operator
              demo_world (configured demo_world)
              [Deliver SIGTERM; SelectSignal] _ _ eq_refl eq_refl)
    as [H1 [H2 _]].
  split; [exact H1|].
  apply H2. simpl; auto.
Defined.

(** C5, as the claim states it, fails: the signal wins, then [op.Run]
    returns; its goroutine enters [finishC <- ...] and in no continuation
    does that send complete. *)
Lemma loser_send_counterexample :
  exists s,
    exec start [Deliver SIGTERM; SelectSignal; OpReturns None] = Some s /\
    pc_main s = Returned None /\
    blocked_forever s.
Proof.
  eexists. split; [reflexivity|]. split; [reflexivity|].
  exists None. split; [reflexivity|].
  intros more s' He.
  match type of He with exec ?s0 _ = _ => set (s1 := s0) in * end.
  assert (Hr : Reachable s1).
  { apply (exec_Reachable [Deliver SIGTERM; SelectSignal; OpReturns None]
             start s1 start_Reachable). reflexivity. }
  destruct (exec_after_return more s1 s' None Hr eq_refl) as [_ Hk];
    [discriminate | exact He |].
  apply Hk. reflexivity.
Qed.

(** C5, amended: when the external-stop path wins, [run] never receives
    from the completion channel, which is unbuffered and stays empty; the
    operator goroutine never gets past its send, and once [op.Run] has
    returned the goroutine stays blocked in that send for good. *)
Theorem loser_send_never_completes (C : ClientsFile) (O : OperatorPackage C)
    (w : World) (g : Globals) (sched : list Event) (r : Result C O)
    (s : State) :
  run O w g sched = Some r -> final r = Some s ->
  In SelectSignal sched ->
  finishC s = make_chan 0 /\
  pc_go s <> Finished /\
  (forall more s', exec s more = Some s' -> pc_go s' <> Finished) /\
  (operator_returned s = true -> blocked_forever s).
Proof.
  intros Hrun Hfin Hin.
  destruct (run_started _ _ _ _ _ _ _ Hrun Hfin) as [He _].
  pose proof (exec_Reachable _ _ _ start_Reachable He) as Hr.
  destruct (in_split _ _ Hin) as [pre [post Heq]]. subst sched.
  destruct (exec_split _ _ _ _ _ He) as [s1 [s2 [H1 [H2 H3]]]].
  pose proof (exec_Reachable _ _ _ start_Reachable H1) as Hr1.
  pose proof (step_Reachable _ _ _ Hr1 H2) as Hr2.
  destruct (step_select s1 s2 SelectSignal eq_refl H2) as [Hm1 _].
  destruct (step_SelectSignal _ _ H2) as [Hm2 [Hgo2 _]].
  assert (Hn1 : pc_go s1 <> Finished).
  { apply (exec_AtSelect_not_Finished pre start s1 start_Reachable);
      [simpl; discriminate | assumption | assumption]. }
  assert (Hn2 : pc_go s2 <> Finished) by (rewrite Hgo2; assumption).
  destruct (exec_after_return post s2 s None Hr2 Hm2 Hn2 H3) as [Hn _].
  destruct (exec_Returned _ _ _ _ Hm2 H3) as [Hm _].
  split; [apply (r_finishC _ Hr)|].
  split; [assumption|].
  split.
  - intros more s' Hmore.
    destruct (exec_after_return more s s' None Hr Hm Hn Hmore) as [H _].
    exact H.
  - intros Hret.
    assert (Hx : exists x, pc_go s = Sending x).
    { unfold operator_returned in Hret.
      destruct (pc_go s) as [|x|]; [discriminate | eauto | congruence]. }
    destruct Hx as [x G].
    exists x. split; [assumption|].
    intros more s' Hmore.
    destruct (exec_after_return more s s' None Hr Hm Hn Hmore) as [_ H].
    apply H. assumption.
Qed.

Lemma loser_send_never_completes_witness :
  exists r s,
    run demo_operator demo_world (configured demo_world)
        [Deliver SIGINT; SelectSignal; OpReturns (Some "watch closed")]
      = Some r /\
    final r = Some s /\
    pc_go s <> Finished /\
    blocked_forever s.
Proof.
  eexists. eexists.
  split; [reflexivity|]. split; [reflexivity|].
  destruct (loser_send_never_completes demo_clients demo_operator
              demo_world (configured demo_world)
              [Deliver SIGINT; SelectSignal; OpReturns (Some "watch closed")]
              _ _ eq_refl eq_refl)
    as [_ [H2 [_ H4]]]; [simpl; auto | ].
  split; [exact H2 | apply H4; reflexivity].
Defined.

(* ------------------------------------------------------------------ *)
(** ** The result of the operator and the race of the select *)

(** Once [op.Run] has returned it does not return again, and its result
    stays the one being sent. *)
Lemma exec_after_OpReturns (sched : list Event) :
  forall s s',
    pc_go s <> Running -> exec s sched = Some s' ->
    pc_go s' <> Running /\
    (forall r, ~ In (OpReturns r) sched) /\
    (forall x, pc_go s' = Sending x -> pc_go s = Sending x).
Proof.
  induction sched as [|e rest IH]; simpl; intros s s' Hn He.
  - inversion He; subst. auto.
  - destruct (step s e) as [s1|] eqn:E; try discriminate.
    assert (H1 : pc_go s1 <> Running /\
                 (forall r, e <> OpReturns r) /\
                 (forall x, pc_go s1 = Sending x -> pc_go s = Sending x)).
    { destruct e; simpl in E.
      - destruct (pc_go s); try discriminate. congruence.
      - destruct (pc_go s); try discriminate.
        destruct (has_room (finishC s)); inversion E; subst; simpl.
        repeat split; try discriminate.
      - destruct (subscribed (notify s) sg && has_room (signalC s));
          inversion E; subst; simpl; repeat split; auto; discriminate.
      - destruct (pc_main s); try discriminate.
        destruct (buf (finishC s)).
        + destruct (pc_go s); inversion E; subst; simpl;
            repeat split; discriminate.
        + inversion E; subst; simpl. repeat split; auto; discriminate.
      - destruct (pc_main s); try discriminate.
        destruct (buf (signalC s)); inversion E; subst; simpl.
        repeat split; auto; discriminate. }
    destruct H1 as [Hn1 [Hne Hk]].
    destruct (IH s1 s' Hn1 He) as [Hn' [Hno Hk']].
    split; [assumption|]. split.
    + intros r [Hr|Hr]; [exact (Hne r Hr) | exact (Hno r Hr)].
    + intros x Hx. apply Hk. apply Hk'. assumption.
Qed.

(** A result being sent is the one [op.Run] returned, and [op.Run] returned
    only that. *)
Lemma exec_Sending (sched : list Event) :
  forall s s' x,
    Reachable s -> pc_go s = Running -> exec s sched = Some s' ->
    pc_go s' = Sending x ->
    In (OpReturns x) sched /\ forall r, In (OpReturns r) sched -> r = x.
Proof.
  induction sched as [|e rest IH]; simpl; intros s s' x Hr Hg He Hs.
  - inversion He; subst. congruence.
  - destruct (step s e) as [s1|] eqn:E; try discriminate.
    pose proof (step_Reachable _ _ _ Hr E) as Hr1.
    destruct e.
    + simpl in E. rewrite Hg in E. inversion E as [E1].
      assert (Hn1 : pc_go s1 <> Running)
        by (rewrite <- E1; simpl; discriminate).
      destruct (exec_after_OpReturns rest s1 s' Hn1 He) as [_ [Hno Hk]].
      pose proof (Hk x Hs) as Hx. rewrite <- E1 in Hx. simpl in Hx.
      inversion Hx; subst r.
      split; [left; reflexivity|].
      intros r [Hin|Hin]; [congruence | exfalso; exact (Hno r Hin)].
    + simpl in E. rewrite Hg in E. discriminate.
    + assert (Hg1 : pc_go s1 = Running).
      { simpl in E.
        destruct (subscribed (notify s) sg && has_room (signalC s));
          inversion E; subst; simpl; assumption. }
      destruct (IH s1 s' x Hr1 Hg1 He Hs) as [Hi Hu].
      split; [right; assumption|].
      intros r [Hin|Hin]; [discriminate | auto].
    + simpl in E. destruct (pc_main s); try discriminate.
      rewrite (r_finishC _ Hr) in E. simpl in E. rewrite Hg in E.
      discriminate.
    + assert (Hg1 : pc_go s1 = Running).
      { destruct (step_SelectSignal _ _ E) as [_ [H _]]. congruence. }
      destruct (IH s1 s' x Hr1 Hg1 He Hs) as [Hi Hu].
      split; [right; assumption|].
      intros r [Hin|Hin]; [discriminate | auto].
Qed.

(** The select taking the [finishC] case returns exactly what [op.Run]
    returned. *)
Lemma exec_finish_received (sched : list Event) (s : State) :
  exec start sched = Some s -> In SelectFinish sched ->
  exists x, pc_main s = Returned x /\ In (OpReturns x) sched /\
            forall r, In (OpReturns r) sched -> r = x.
Proof.
  intros He Hin.
  destruct (in_split _ _ Hin) as [pre [post Heq]]. subst sched.
  destruct (exec_split _ _ _ _ _ He) as [s1 [s2 [H1 [H2 H3]]]].
  pose proof (exec_Reachable _ _ _ start_Reachable H1) as Hr1.
  simpl in H2. destruct (pc_main s1); try discriminate.
  rewrite (r_finishC _ Hr1) in H2. simpl in H2.
  destruct (pc_go s1) as [|x|] eqn:G; try discriminate.
  inversion H2; subst s2. clear H2.
  assert (Hm2 : after_finish x = Returned x) by (destruct x; reflexivity).
  rewrite Hm2 in H3.
  assert (Hm : pc_main s = Returned x).
  { match type of H3 with
    | exec ?s0 _ = _ =>
        destruct (exec_Returned post s0 s x eq_refl H3) as [H _]
    end.
    exact H. }
  destruct (exec_Sending pre start s1 x start_Reachable eq_refl H1 G)
    as [Hi Hu].
  assert (Hno : forall r, ~ In (OpReturns r) post).
  { match type of H3 with
    | exec ?s0 _ = _ =>
        assert (Hn2 : pc_go s0 <> Running) by (simpl; discriminate);
        destruct (exec_after_OpReturns post s0 s Hn2 H3) as [_ [H _]]
    end.
    exact H. }
  exists x. split; [assumption|]. split.
  - apply in_or_app. left. assumption.
  - intros r Hr. apply in_app_or in Hr. destruct Hr as [Hr|[Hr|Hr]].
    + auto.
    + discriminate.
    + exfalso. exact (Hno r Hr).
Qed.

(** Without a select, [run] stays where it was. *)
Lemma exec_no_select (sched : list Event) :
  forall s s',
    exec s sched = Some s' -> no_select sched = true ->
    pc_main s' = pc_main s.
Proof.
  induction sched as [|e rest IH]; simpl; intros s s' He Hn.
  - inversion He; subst; reflexivity.
  - destruct (step s e) as [s1|] eqn:E; try discriminate.
    apply andb_prop in Hn. destruct Hn as [Hne Hn].
    rewrite (IH s1 s' He Hn). clear IH He.
    destruct e; try discriminate; simpl in E.
    + destruct (pc_go s); inversion E; subst; reflexivity.
    + destruct (pc_go s); try discriminate.
      destruct (has_room (finishC s)); inversion E; subst; reflexivity.
    + destruct (subscribed (notify s) sg && has_room (signalC s));
        inversion E; subst; reflexivity.
Qed.

(** Until the select takes it, the first subscribed signal that was raised
    sits in the buffer of [signalC]; no other signal gets in. *)
Lemma exec_signal_buffered (sched : list Event) :
  forall s s',
    Reachable s -> exec s sched = Some s' -> ~ In SelectSignal sched ->
    buf (signalC s') =
    match buf (signalC s) with
    | [] => match first_subscribed sched with
            | Some sg => [sg]
            | None => []
            end
    | b => b
    end.
Proof.
  induction sched as [|e rest IH];
    cbn [exec first_subscribed]; intros s s' Hr He Hn.
  - inversion He; subst. destruct (buf (signalC s')); reflexivity.
  - destruct (step s e) as [s1|] eqn:E; try discriminate.
    pose proof (step_Reachable _ _ _ Hr E) as Hr1.
    assert (Hn' : ~ In SelectSignal rest) by (intros H; apply Hn; right; auto).
    rewrite (IH s1 s' Hr1 He Hn'). clear IH He.
    destruct e; cbn [step] in E.
    + destruct (pc_go s); inversion E; subst; reflexivity.
    + destruct (pc_go s); try discriminate.
      destruct (has_room (finishC s)); inversion E; subst; reflexivity.
    + rewrite (r_notify _ Hr) in E. unfold has_room in E.
      rewrite (r_cap _ Hr) in E.
      destruct (buf (signalC s)) as [|b l] eqn:B;
        destruct (subscribed [SIGTERM; SIGINT] sg);
        cbn in E; inversion E; subst; cbn; rewrite ?B; reflexivity.
    + destruct (pc_main s); try discriminate.
      destruct (buf (finishC s)).
      * destruct (pc_go s); inversion E; subst; reflexivity.
      * inversion E; subst; reflexivity.
    + exfalso. apply Hn. left. reflexivity.
Qed.

(** C3: when the construction of the Kubernetes clients, the construction
    of the operator, or [op.Run] (its result being the one the select
    takes) gives a non-nil error, [run] returns that very error, and
    [Execute] prints it and ends the process with exit status 1. *)
Theorem run_error_reported (C : ClientsFile) (O : OperatorPackage C)
    (w : World) (g : Globals) (sched : list Event) (r : Result C O)
    (e : string) :
  run O w g sched = Some r ->
  fails_with O w g sched e ->
  outcome r = Returns (Some e) /\
  (arg_error w = None -> g = configured w ->
   Execute O w sched =
   Some (mkProcess (stdout g ++ [e])%list (Exited 1))).
Proof.
  intros Hrun Hfail.
  assert (Hout : outcome r = Returns (Some e)).
  { revert Hrun Hfail. unfold run, fails_with, resync_interval.
    destruct (GetKubernetesClients C w g Std) as [[[nl crd] k8s] [e'|]].
    - intros H He; inversion H; subst; reflexivity.
    - destruct (New O _ nl crd k8s Std) as [op [e'|]]; simpl.
      + intros H He; inversion H; subst; reflexivity.
      + destruct (exec start sched) as [s|] eqn:E; try discriminate.
        intros H [Hop Hsel]; inversion H; subst; simpl.
        destruct (exec_finish_received _ _ E Hsel) as [x [Hm [_ Hu]]].
        unfold outcome_of. rewrite Hm. rewrite (Hu _ Hop). reflexivity. }
  split; [assumption|].
  intros Harg Hg. subst g.
  unfold Execute, rootCmd_Execute. rewrite Harg.
  unfold configured in Hrun. rewrite Hrun. rewrite Hout.
  reflexivity.
Qed.

Lemma run_error_reported_witness :
  exists r,
    run demo_operator demo_world (configured demo_world)
        [OpReturns (Some "initial listing failed"); SelectFinish] = Some r /\
    outcome r = Returns (Some "initial listing failed") /\
    Execute demo_operator demo_world
        [OpReturns (Some "initial listing failed"); SelectFinish] =
    Some (mkProcess ["initial listing failed"] (Exited 1)).
Proof.
  eexists. split; [reflexivity|].
  assert (Hf : fails_with demo_operator demo_world (configured demo_world)
                 [OpReturns (Some "initial listing failed"); SelectFinish]
                 "initial listing failed")
    by (unfold fails_with; simpl; auto).
  destruct (run_error_reported demo_clients demo_operator demo_world
              (configured demo_world)
              [OpReturns (Some "initial listing failed"); SelectFinish]
              _ "initial listing failed" eq_refl Hf) as [H1 H2].
  split; [exact H1|]. apply H2; reflexivity.
Defined.

(** C4: the value [run] returns is fixed by the one event its select takes,
    the first and only select of the execution: [nil] for the signal, the
    result of [op.Run] for the completion channel; nothing before it lets
    [run] return and nothing after it is received.  When both are ready,
    either may be taken. *)
Theorem run_first_select_decides (C : ClientsFile) (O : OperatorPackage C)
    (w : World) (g : Globals) (sched : list Event) (r : Result C O)
    (s : State) :
  run O w g sched = Some r -> final r = Some s ->
  (no_select sched = true -> outcome r = Blocked) /\
  (forall pre ev post,
     sched = (pre ++ ev :: post)%list -> is_select ev = true ->
     no_select pre = true /\ no_select post = true /\
     match ev with
     | SelectSignal => outcome r = Returns None
     | _ => exists x, In (OpReturns x) pre /\ outcome r = Returns x
     end) /\
  (forall x, pc_main s = AtSelect -> pc_go s = Sending x ->
             buf (signalC s) <> [] ->
   exists sa sb,
     step s SelectFinish = Some sa /\ pc_main sa = Returned x /\
     step s SelectSignal = Some sb /\ pc_main sb = Returned None).
Proof.
  intros Hrun Hfin.
  destruct (run_started _ _ _ _ _ _ _ Hrun Hfin) as [He Ho].
  pose proof (exec_Reachable _ _ _ start_Reachable He) as Hr.
  split; [|split].
  - intros Hn. rewrite Ho. unfold outcome_of.
    rewrite (exec_no_select _ _ _ He Hn). reflexivity.
  - intros pre ev post Heq Hsel. subst sched.
    destruct (exec_split _ _ _ _ _ He) as [s1 [s2 [H1 [H2 H3]]]].
    destruct (step_select _ _ _ Hsel H2) as [Hm1 [ret Hm2]].
    destruct (exec_Returned _ _ _ _ Hm2 H3) as [Hm Hpost].
    split; [eapply exec_AtSelect; eassumption|].
    split; [assumption|].
    destruct ev; try discriminate.
    + assert (Hin : In SelectFinish (pre ++ SelectFinish :: post))
        by (apply in_or_app; right; left; reflexivity).
      destruct (exec_finish_received _ _ He Hin) as [x [Hx [Hi _]]].
      exists x. split.
      * apply in_app_or in Hi. destruct Hi as [Hi|[Hi|Hi]];
          [assumption | discriminate |].
        exfalso.
        assert (Hn2 : pc_go s2 <> Running).
        { pose proof (exec_Reachable _ _ _ start_Reachable H1) as Hr1.
          simpl in H2. rewrite Hm1 in H2.
          rewrite (r_finishC _ Hr1) in H2. simpl in H2.
          destruct (pc_go s1); inversion H2; subst; simpl; discriminate. }
        destruct (exec_after_OpReturns post s2 s Hn2 H3) as [_ [Hno _]].
        exact (Hno x Hi).
      * rewrite Ho. unfold outcome_of. rewrite Hx. reflexivity.
    + assert (Hin : In SelectSignal (pre ++ SelectSignal :: post))
        by (apply in_or_app; right; left; reflexivity).
      destruct (exec_signal_received _ _ _ He Hin) as [Hx _].
      rewrite Ho. unfold outcome_of. rewrite Hx. reflexivity.
  - intros x Hm Hg Hb.
    simpl. rewrite Hm, Hg, (r_finishC _ Hr). simpl.
    destruct (buf (signalC s)) as [|b l]; [exfalso; apply Hb; reflexivity|].
    eexists. eexists.
    split; [reflexivity|]. split; [destruct x; reflexivity|].
    split; reflexivity.
Qed.

Lemma run_first_select_decides_witness :
  exists r,
    run demo_operator demo_world (configured demo_world)
        [Deliver SIGTERM; OpReturns (Some "initial listing failed");
         SelectFinish; Deliver SIGINT] = Some r /\
    outcome r = Returns (Some "initial listing failed").
Proof.
  eexists. split; [reflexivity|].
  destruct (run_first_select_decides demo_clients demo_operator demo_world
              (configured demo_world)
              [Deliver SIGTERM; OpReturns (Some "initial listing failed");
               SelectFinish; Deliver SIGINT] _ _ eq_refl eq_refl)
    as [_ [H _]].
  destruct (H [Deliver SIGTERM; OpReturns (Some "initial listing failed")]
              SelectFinish [Deliver SIGINT] eq_refl eq_refl)
    as [_ [_ [x [Hin Hx]]]].
  destruct Hin as [Hin|[Hin|[]]]; [discriminate|].
  inversion Hin; subst x. exact Hx.
Defined.

(** C10: [run] subscribes exactly SIGTERM and SIGINT, on a signal channel
    of capacity 1; until the select takes it, the first subscribed signal
    raised stays in that buffer, wherever [run] is, and no other signal
    ever enters the channel. *)
Theorem signal_subscription (C : ClientsFile) (O : OperatorPackage C)
    (w : World) (g : Globals) (sched : list Event) (r : Result C O)
    (s : State) :
  run O w g sched = Some r -> final r = Some s ->
  notify s = [SIGTERM; SIGINT] /\
  cap (signalC s) = 1%nat /\
  (forall sg, subscribed (notify s) sg = true <->
              sg = SIGTERM \/ sg = SIGINT) /\
  (~ In SelectSignal sched ->
   buf (signalC s) = match first_subscribed sched with
                     | Some sg => [sg]
                     | None => []
                     end) /\
  (forall sg, first_subscribed sched = Some sg ->
              sg = SIGTERM \/ sg = SIGINT).
Proof.
  intros Hrun Hfin.
  destruct (run_started _ _ _ _ _ _ _ Hrun Hfin) as [He _].
  pose proof (exec_Reachable _ _ _ start_Reachable He) as Hr.
  split; [apply (r_notify _ Hr)|].
  split; [apply (r_cap _ Hr)|].
  split.
  { intros sg. rewrite (r_notify _ Hr).
    destruct sg; simpl; split; intros H; auto; try discriminate;
      destruct H; discriminate. }
  split.
  { intros Hn.
    rewrite (exec_signal_buffered sched start s start_Reachable He Hn).
    reflexivity. }
  clear. induction sched as [|e rest IH]; simpl; intros sg H.
  - discriminate.
  - destruct e; auto.
    destruct sg0; simpl in H; auto; inversion H; auto.
Qed.

Lemma signal_subscription_witness :
  exists r s,
    run demo_operator demo_world (configured demo_world)
        [Deliver SIGHUP; Deliver SIGINT; OpReturns None; Deliver SIGTERM]
      = Some r /\
    final r = Some s /\
    buf (signalC s) = [SIGINT].
Proof.
  eexists. eexists.
  split; [reflexivity|]. split; [reflexivity|].
  destruct (signal_subscription demo_clients demo_operator demo_world
              (configured demo_world)
              [Deliver SIGHUP; Deliver SIGINT; OpReturns None;
               Deliver SIGTERM] _ _ eq_refl eq_refl)
    as [_ [_ [_ [H _]]]].
  apply H. simpl. intuition discriminate.
Defined.

(* ------------------------------------------------------------------ *)
(** ** The configuration [run] reads *)

Lemma wrap64_small (z : Z) :
  time.min_int64 <= z <= time.max_int64 -> time.wrap64 z = z.
Proof.
  unfold time.min_int64, time.max_int64, time.wrap64.
  change (2 ^ 63) with 9223372036854775808.
  change (2 ^ 64) with 18446744073709551616.
  intros H. rewrite Z.mod_small; lia.
Qed.

(** Within the range of [time.Duration] the interval is [n] seconds. *)
Lemma seconds_exact (n : Z) :
  fits_seconds n ->
  time.mul (time.of_int n) time.Second = n * 1000000000.
Proof.
  unfold fits_seconds, time.mul, time.of_int.
  change time.Second with 1000000000.
  intros H.
  assert (Hn : time.min_int64 <= n <= time.max_int64).
  { unfold time.min_int64, time.max_int64 in *.
    change (2 ^ 63) with 9223372036854775808 in *. lia. }
  rewrite (wrap64_small n Hn). apply wrap64_small. assumption.
Qed.

(** The calls [run] makes once the clients are there. *)
Lemma run_calls (C : ClientsFile) (O : OperatorPackage C) (w : World)
    (g : Globals) (sched : list Event) (r : Result C O)
    (nl : NodeLabelerClient C) (crd : CRDClient C) (k8s : KubeClient C) :
  run O w g sched = Some r ->
  GetKubernetesClients C w g Std = (nl, crd, k8s, None) ->
  let oconfig := NewOperatorConfig O (resync_interval w g) in
  (calls r =
     [CallGetKubernetesClients Std;
      CallNewOperatorConfig (resync_interval w g);
      CallNew oconfig nl crd k8s Std] /\
   exists e, snd (New O oconfig nl crd k8s Std) = Some e /\
             outcome r = Returns (Some e) /\ final r = None) \/
  (calls r =
     [CallGetKubernetesClients Std;
      CallNewOperatorConfig (resync_interval w g);
      CallNew oconfig nl crd k8s Std;
      CallRun (fst (New O oconfig nl crd k8s Std))] /\
   snd (New O oconfig nl crd k8s Std) = None /\
   exists s, exec start sched = Some s /\ final r = Some s /\
             outcome r = outcome_of s).
Proof.
  intros Hrun Hcl. unfold run in Hrun. rewrite Hcl in Hrun.
  fold (resync_interval w g) in Hrun. simpl.
  destruct (New O (NewOperatorConfig O (resync_interval w g)) nl crd k8s Std)
    as [op [e|]]; simpl in *.
  - left. inversion Hrun; subst; simpl.
    split; [reflexivity|]. exists e. auto.
  - right. destruct (exec start sched) as [s|]; try discriminate.
    inversion Hrun; subst; simpl.
    split; [reflexivity|]. split; [reflexivity|]. exists s. auto.
Qed.

Lemma flag_set_other (fs : list Flag) (name key : string) (v : Value) :
  String.eqb name key = false ->
  flag_lookup (flag_set fs name v) key = flag_lookup fs key.
Proof.
  intros Hne. induction fs as [|f rest IH]; simpl; [reflexivity|].
  destruct (String.eqb (flag_name f) name) eqn:E1; simpl.
  - apply String.eqb_eq in E1. rewrite E1, Hne. reflexivity.
  - rewrite IH. reflexivity.
Qed.

(** Flags that were not given keep their state through the parsing. *)
Lemma set_all_other (args : list (string * Value)) (key : string) :
  assoc_lookup args key = None ->
  forall fs,
    flag_lookup
      (fold_left (fun acc kv => flag_set acc (fst kv) (snd kv)) args fs) key
    = flag_lookup fs key.
Proof.
  induction args as [|[k v] rest IH]; simpl; intros Hnone fs; [reflexivity|].
  destruct (String.eqb k key) eqn:E; try discriminate.
  rewrite (IH Hnone). apply flag_set_other. assumption.
Qed.

Lemma flag_lookup_app (fs1 fs2 : list Flag) (key : string) :
  flag_lookup (fs1 ++ fs2) key =
  match flag_lookup fs1 key with
  | Some f => Some f
  | None => flag_lookup fs2 key
  end.
Proof.
  induction fs1 as [|f rest IH]; simpl; [reflexivity|].
  destruct (String.eqb (flag_name f) key); [reflexivity | apply IH].
Qed.

(** [initConfig] leaves the flags alone. *)
Lemma initConfig_flags (w : World) (g : Globals) :
  PersistentFlags (initConfig w g) = PersistentFlags g /\
  Flags (initConfig w g) = Flags g /\
  cfgFile (initConfig w g) = cfgFile g.
Proof.
  unfold initConfig.
  destruct (negb (String.eqb (cfgFile g) ""));
    match goal with
    | |- context [viper.ReadInConfig ?f ?v] =>
        destruct (viper.ReadInConfig f v) as [v' [e|]]
    end; simpl; auto.
Qed.

(** What [initConfig] does to the viper singleton and to standard output:
    either a configuration file was read, its settings are stored and one
    line is printed; or the read failed, and nothing but the search
    parameters changed. *)
Lemma initConfig_viper (w : World) (g : Globals) :
  viper.pflags (vp (initConfig w g)) = viper.pflags (vp g) /\
  viper.automaticEnv (vp (initConfig w g)) = true /\
  ((exists v file settings,
      read_config w v = viper.ReadOk file settings /\
      viper.config (vp (initConfig w g)) = settings /\
      stdout (initConfig w g) =
        (stdout g ++ [("Using config file: " ++ file)%string])%list) \/
   (exists v msg,
      read_config w v = viper.ReadErr msg /\
      viper.config (vp (initConfig w g)) = viper.config (vp g) /\
      viper.configFileUsed (vp (initConfig w g)) =
        viper.configFileUsed (vp g) /\
      stdout (initConfig w g) = stdout g)).
Proof.
  unfold initConfig, viper.ReadInConfig.
  destruct (negb (String.eqb (cfgFile g) ""));
    match goal with
    | |- context [read_config w ?v] =>
        destruct (read_config w v) as [file settings|msg] eqn:R
    end; simpl;
    (split; [reflexivity|]); (split; [reflexivity|]);
    [left | right | left | right]; eauto 10.
Qed.

(** The flag [resync-seconds], as long as the command line does not set it. *)
Lemma resync_flag_default (w : World) :
  assoc_lookup (arg_flags w) "resync-seconds" = None ->
  flag_lookup (PersistentFlags (configured w) ++ Flags (configured w))
              "resync-seconds"
  = Some (new_flag "resync-seconds" (IntValue 30)).
Proof.
  intros Hflag. unfold configured.
  destruct (initConfig_flags w (parse_flags w (init w))) as [Hp [Hf _]].
  rewrite flag_lookup_app, Hp, Hf. simpl.
  rewrite !(set_all_other _ _ Hflag).
  destruct (String.eqb (arg_config w) ""); reflexivity.
Qed.

(** With nothing set on the command line, in the environment or in the
    configuration file, [resync-seconds] is the default of the flag. *)
Lemma GetInt_default (w : World) :
  assoc_lookup (arg_flags w) "resync-seconds" = None ->
  assoc_lookup (environ w) "RESYNC-SECONDS" = None ->
  (forall v file settings,
     read_config w v = viper.ReadOk file settings ->
     assoc_lookup settings "resync-seconds" = None) ->
  GetInt w (configured w) "resync-seconds" = 30.
Proof.
  intros Hflag Henv Hcfg.
  pose proof (initConfig_viper w (parse_flags w (init w))) as H.
  fold (configured w) in H. destruct H as [Hpf [Hae Hc]].
  unfold GetInt, viper.GetInt, viper.Get, viper.getEnv.
  rewrite Hpf, Hae.
  change (assoc_lookup (viper.pflags (vp (parse_flags w (init w))))
                       "resync-seconds")
    with (Some "resync-seconds").
  cbv beta iota zeta.
  rewrite (resync_flag_default w Hflag).
  change (ToUpper "resync-seconds") with "RESYNC-SECONDS".
  rewrite Henv.
  cbn [new_flag flag_changed flag_default].
  destruct Hc as [[v [file [settings [R [Hs _]]]]] | [v [msg [_ [Hs _]]]]];
    rewrite Hs.
  - rewrite (Hcfg _ _ _ R). reflexivity.
  - reflexivity.
Qed.

(** C6, as the claim states it, fails: with [--resync-seconds=9223372037]
    the int64 multiplication by [time.Second] wraps, and the interval handed
    to the operator configuration is negative, not 9223372037 seconds. *)
Lemma resync_interval_counterexample :
  GetInt (world_with_resync 9223372037)
         (configured (world_with_resync 9223372037)) "resync-seconds"
    = 9223372037 /\
  exists r,
    run demo_operator (world_with_resync 9223372037)
        (configured (world_with_resync 9223372037)) [] = Some r /\
    calls r =
      [CallGetKubernetesClients Std;
       CallNewOperatorConfig (-9223372036709551616);
       CallNew (O := demo_operator) (-9223372036709551616) "nodelabeler" "crd" "kubernetes" Std;
       CallRun (O := demo_operator) "operator"] /\
    -9223372036709551616 <> 9223372037 * 1000000000.
Proof.
  split; [vm_compute; reflexivity|].
  eexists. split; [vm_compute; reflexivity|].
  split; [reflexivity | discriminate].
Qed.

(** C6, amended: for a configured [resync-seconds] value [n] whose count of
    nanoseconds fits an int64 (-9223372036 <= n <= 9223372036), the interval
    handed to the operator configuration is [n] seconds; when
    [resync-seconds] is set neither on the command line nor in the
    environment nor in the configuration file, it is 30 seconds; and the
    operator configuration is built from this interval alone. *)
Theorem resync_interval_seconds (C : ClientsFile) (O : OperatorPackage C)
    (w : World) (g : Globals) (sched : list Event) (r : Result C O)
    (nl : NodeLabelerClient C) (crd : CRDClient C) (k8s : KubeClient C) :
  run O w g sched = Some r ->
  GetKubernetesClients C w g Std = (nl, crd, k8s, None) ->
  fits_seconds (GetInt w g "resync-seconds") ->
  firstn 3 (calls r) =
    [CallGetKubernetesClients Std;
     CallNewOperatorConfig (GetInt w g "resync-seconds" * 1000000000);
     CallNew (NewOperatorConfig O (GetInt w g "resync-seconds" * 1000000000))
             nl crd k8s Std] /\
  (assoc_lookup (arg_flags w) "resync-seconds" = None ->
   assoc_lookup (environ w) "RESYNC-SECONDS" = None ->
   (forall v file settings,
      read_config w v = viper.ReadOk file settings ->
      assoc_lookup settings "resync-seconds" = None) ->
   GetInt w (configured w) "resync-seconds" = 30 /\
   resync_interval w (configured w) = 30 * 1000000000).
Proof.
  intros Hrun Hcl Hfit. split.
  - pose proof (run_calls _ _ _ _ _ _ _ _ _ Hrun Hcl) as H. simpl in H.
    unfold resync_interval in H. rewrite (seconds_exact _ Hfit) in H.
    destruct H as [[Hc _] | [Hc _]]; rewrite Hc; reflexivity.
  - intros Hflag Henv Hcfg.
    pose proof (GetInt_default w Hflag Henv Hcfg) as Hd.
    split; [assumption|].
    unfold resync_interval. rewrite Hd. vm_compute. reflexivity.
Qed.

Lemma resync_interval_seconds_witness :
  exists r,
    run demo_operator demo_world (configured demo_world) [] = Some r /\
    firstn 3 (calls r) =
      [CallGetKubernetesClients Std;
       CallNewOperatorConfig 30000000000;
       CallNew (O := demo_operator) 30000000000 "nodelabeler" "crd" "kubernetes" Std].
Proof.
  eexists. split; [reflexivity|].
  destruct (resync_interval_seconds demo_clients demo_operator demo_world
              (configured demo_world) [] _ "nodelabeler" "crd" "kubernetes"
              eq_refl eq_refl) as [H _].
  - unfold fits_seconds. vm_compute. split; discriminate.
  - exact H.
Defined.

(** C7: [run] hands the operator its clients and its logger as arguments
    of the constructor: the three clients [GetKubernetesClients] returned
    and the logger [run] created; the operator that is run is the one that
    constructor call returned; and what [run] does with the operator is the
    same under any package-level state that yields the same clients and the
    same resync interval. *)
Theorem operator_dependencies_injected (C : ClientsFile)
    (O : OperatorPackage C) (w : World) (g : Globals) (sched : list Event)
    (r : Result C O)
    (nl : NodeLabelerClient C) (crd : CRDClient C) (k8s : KubeClient C) :
  run O w g sched = Some r ->
  GetKubernetesClients C w g Std = (nl, crd, k8s, None) ->
  nth_error (calls r) 2 =
    Some (CallNew (NewOperatorConfig O (resync_interval w g))
                  nl crd k8s Std) /\
  (forall op, In (CallRun op) (calls r) ->
     op = fst (New O (NewOperatorConfig O (resync_interval w g))
                   nl crd k8s Std)) /\
  (forall w' g' r',
     run O w' g' sched = Some r' ->
     GetKubernetesClients C w' g' Std = (nl, crd, k8s, None) ->
     resync_interval w' g' = resync_interval w g ->
     r' = r).
Proof.
  intros Hrun Hcl.
  pose proof (run_calls _ _ _ _ _ _ _ _ _ Hrun Hcl) as H. simpl in H.
  split; [|split].
  - destruct H as [[Hc _] | [Hc _]]; rewrite Hc; reflexivity.
  - intros op Hin.
    destruct H as [[Hc _] | [Hc _]]; rewrite Hc in Hin; simpl in Hin.
    + destruct Hin as [Hin|[Hin|[Hin|[]]]]; discriminate.
    + destruct Hin as [Hin|[Hin|[Hin|[Hin|[]]]]]; try discriminate.
      inversion Hin. reflexivity.
  - intros w' g' r' Hrun' Hcl' Hres.
    unfold run in Hrun, Hrun'. rewrite Hcl in Hrun. rewrite Hcl' in Hrun'.
    fold (resync_interval w g) in Hrun.
    fold (resync_interval w' g') in Hrun'.
    rewrite Hres in Hrun'. congruence.
Qed.

Lemma operator_dependencies_injected_witness :
  exists r,
    run demo_operator demo_world (configured demo_world) [] = Some r /\
    nth_error (calls r) 2 =
      Some (CallNew (O := demo_operator) 30000000000 "nodelabeler" "crd" "kubernetes" Std).
Proof.
  eexists. split; [reflexivity|].
  destruct (operator_dependencies_injected demo_clients demo_operator
              demo_world (configured demo_world) [] _
              "nodelabeler" "crd" "kubernetes" eq_refl eq_refl) as [H _].
  exact H.
Defined.

(** C8: a configuration file that is missing or cannot be read never
    fails the start: whatever the read gives, [initConfig] returns and
    [rootCmd.Execute] goes on to [run]; the error of the read is dropped,
    nothing is printed and no file settings are stored, so [run] works
    with the flags, the environment and the defaults; a line naming the
    file is printed only when the read succeeded. *)
Theorem config_file_optional (C : ClientsFile) (O : OperatorPackage C)
    (w : World) (sched : list Event) :
  arg_error w = None ->
  rootCmd_Execute O w (init w) sched =
    match run O w (configured w) sched with
    | Some r => Some (configured w, outcome r)
    | None => None
    end /\
  ((forall v, exists msg, read_config w v = viper.ReadErr msg) ->
   stdout (configured w) = [] /\
   viper.config (vp (configured w)) = [] /\
   forall r, run O w (configured w) sched = Some r ->
             outcome r = Returns None ->
             Execute O w sched = Some (mkProcess [] BackInMain)) /\
  (forall file settings,
     (forall v, read_config w v = viper.ReadOk file settings) ->
     stdout (configured w) = [("Using config file: " ++ file)%string] /\
     viper.config (vp (configured w)) = settings).
Proof.
  intros Harg.
  pose proof (initConfig_viper w (parse_flags w (init w))) as H.
  fold (configured w) in H. destruct H as [_ [_ Hc]].
  assert (Hroot : rootCmd_Execute O w (init w) sched =
                  match run O w (configured w) sched with
                  | Some r => Some (configured w, outcome r)
                  | None => None
                  end).
  { unfold rootCmd_Execute. rewrite Harg. reflexivity. }
  split; [assumption|]. split.
  - intros Hread.
    assert (Hs : stdout (configured w) = [] /\
                 viper.config (vp (configured w)) = []).
    { destruct Hc
        as [[v [file [settings [R _]]]] | [v [msg [_ [Hcfg [_ Hout]]]]]].
      - destruct (Hread v) as [msg Hm]. congruence.
      - rewrite Hout, Hcfg. split; reflexivity. }
    destruct Hs as [Hout Hcfg].
    split; [assumption|]. split; [assumption|].
    intros r Hrun Hnil. unfold Execute. rewrite Hroot, Hrun, Hnil, Hout.
    reflexivity.
  - intros file settings Hread.
    destruct Hc
      as [[v [file' [settings' [R [Hcfg Hout]]]]] | [v [msg [R _]]]].
    + rewrite Hread in R. inversion R as [[Hf Hs]].
      rewrite Hout, Hcfg. split; reflexivity.
    + rewrite Hread in R. discriminate.
Qed.

Lemma config_file_optional_witness :
  stdout (configured demo_world) = [] /\
  Execute demo_operator demo_world [Deliver SIGTERM; SelectSignal] =
    Some (mkProcess [] BackInMain).
Proof.
  destruct (config_file_optional demo_clients demo_operator demo_world
              [Deliver SIGTERM; SelectSignal] eq_refl) as [_ [H _]].
  destruct H as [H1 [_ H3]].
  - intros v. exists "Config File Not Found". reflexivity.
  - split; [exact H1|]. eapply H3; reflexivity.
Defined.

(** C9, as the claim states it, fails: run validates nothing, but a negative
    value is not always passed through as it is: with
    [--resync-seconds=-9223372037] the int64 multiplication of line 115
    wraps and the operator configuration receives a positive interval. *)
Lemma resync_not_validated_counterexample :
  GetInt (world_with_resync (-9223372037))
         (configured (world_with_resync (-9223372037))) "resync-seconds"
    = -9223372037 /\
  exists r,
    run demo_operator (world_with_resync (-9223372037))
        (configured (world_with_resync (-9223372037))) [] = Some r /\
    nth_error (calls r) 1 =
      Some (CallNewOperatorConfig 9223372036709551616) /\
    0 < 9223372036709551616 /\
    9223372036709551616 <> -9223372037 * 1000000000.
Proof.
  split; [vm_compute; reflexivity|].
  eexists. split; [vm_compute; reflexivity|].
  split; [reflexivity|]. split; [reflexivity | discriminate].
Qed.

(** C9, amended: [run] does not validate [resync-seconds]: whatever
    [viper.GetInt] yields is converted by line 115 and handed to the
    operator configuration; zero gives a zero interval; a negative value
    down to -9223372036 gives that negative number of seconds (below it
    the int64 multiplication wraps); and a value that is no integer, which
    [viper.GetInt] turns into 0, gives a zero interval. *)
Theorem resync_not_validated (C : ClientsFile) (O : OperatorPackage C)
    (w : World) (g : Globals) (sched : list Event) (r : Result C O)
    (nl : NodeLabelerClient C) (crd : CRDClient C) (k8s : KubeClient C) :
  run O w g sched = Some r ->
  GetKubernetesClients C w g Std = (nl, crd, k8s, None) ->
  nth_error (calls r) 1 =
    Some (CallNewOperatorConfig
            (time.mul (time.of_int (GetInt w g "resync-seconds"))
                      time.Second)) /\
  (GetInt w g "resync-seconds" = 0 -> resync_interval w g = 0) /\
  (-9223372036 <= GetInt w g "resync-seconds" < 0 ->
   resync_interval w g = GetInt w g "resync-seconds" * 1000000000 /\
   resync_interval w g < 0) /\
  (forall s,
     viper.Get (PersistentFlags g ++ Flags g)%list (environ w) (vp g)
               "resync-seconds" = Some (OtherValue s) ->
     GetInt w g "resync-seconds" = 0 /\ resync_interval w g = 0).
Proof.
  intros Hrun Hcl.
  pose proof (run_calls _ _ _ _ _ _ _ _ _ Hrun Hcl) as H. simpl in H.
  split; [|split; [|split]].
  - destruct H as [[Hc _] | [Hc _]]; rewrite Hc; reflexivity.
  - intros H0. unfold resync_interval. rewrite H0. reflexivity.
  - intros Hneg. unfold resync_interval.
    assert (Hfit : fits_seconds (GetInt w g "resync-seconds")).
    { unfold fits_seconds, time.min_int64, time.max_int64.
      change (2 ^ 63) with 9223372036854775808.
      change time.Second with 1000000000. lia. }
    rewrite (seconds_exact _ Hfit). split; [reflexivity | lia].
  - intros s Hget.
    assert (H0 : GetInt w g "resync-seconds" = 0).
    { unfold GetInt, viper.GetInt. rewrite Hget. reflexivity. }
    split; [assumption|].
    unfold resync_interval. rewrite H0. reflexivity.
Qed.

Lemma resync_not_validated_witness :
  exists r,
    run demo_operator (world_with_resync (-5))
        (configured (world_with_resync (-5))) [] = Some r /\
    nth_error (calls r) 1 = Some (CallNewOperatorConfig (-5000000000)) /\
    resync_interval (world_with_resync (-5))
                    (configured (world_with_resync (-5))) < 0.
Proof.
  eexists. split; [vm_compute; reflexivity|].
  destruct (resync_not_validated demo_clients demo_operator
              (world_with_resync (-5)) (configured (world_with_resync (-5)))
              [] _ "nodelabeler" "crd" "kubernetes" eq_refl eq_refl)
    as [H [_ [Hneg _]]].
  split; [exact H|].
  apply Hneg. vm_compute. split; [discriminate | reflexivity].
Defined.

(* ------------------------------------------------------------------ *)
(** ** Further properties of [init], [initConfig], [run] and [Execute] *)

Lemma first_subscribed_In (sched : list Event) (sg : Signal) :
  first_subscribed sched = Some sg ->
  In (Deliver sg) sched /\ (sg = SIGTERM \/ sg = SIGINT).
Proof.
  induction sched as [|e rest IH]; cbn [first_subscribed]; intros H.
  - discriminate.
  - destruct e; try (destruct (IH H) as [H1 H2]; split; [right|]; assumption).
    destruct (subscribed [SIGTERM; SIGINT] sg0) eqn:S.
    + inversion H; subst. split; [left; reflexivity|].
      destruct sg; simpl in S; auto; discriminate.
    + destruct (IH H) as [H1 H2]. split; [right|]; assumption.
Qed.

Lemma no_select_not_In (sched : list Event) :
  no_select sched = true ->
  ~ In SelectSignal sched /\ ~ In SelectFinish sched.
Proof.
  unfold no_select. rewrite forallb_forall. intros H.
  split; intros Hin; apply H in Hin; discriminate.
Qed.

Lemma no_select_false_split (sched : list Event) :
  no_select sched = false ->
  exists pre ev post,
    sched = (pre ++ ev :: post)%list /\ is_select ev = true /\
    no_select pre = true.
Proof.
  induction sched as [|e rest IH]; simpl; intros H; [discriminate|].
  destruct (is_select e) eqn:E; simpl in H.
  - exists [], e, rest. auto.
  - destruct (IH H) as [pre [ev [post [Heq [Hsel Hpre]]]]].
    exists (e :: pre), ev, post. subst rest. simpl. rewrite E. auto.
Qed.

(** Only the signal case of the select writes to the log. *)
Lemma exec_log_unchanged (sched : list Event) :
  forall s s',
    exec s sched = Some s' -> ~ In SelectSignal sched -> log s' = log s.
Proof.
  induction sched as [|e rest IH]; simpl; intros s s' He Hn.
  - inversion He; subst; reflexivity.
  - destruct (step s e) as [s1|] eqn:E; try discriminate.
    assert (Hn' : ~ In SelectSignal rest) by (intros H; apply Hn; right; auto).
    rewrite (IH s1 s' He Hn'). clear IH He.
    destruct e; simpl in E.
    + destruct (pc_go s); inversion E; subst; reflexivity.
    + destruct (pc_go s); try discriminate.
      destruct (has_room (finishC s)); inversion E; subst; reflexivity.
    + destruct (subscribed (notify s) sg && has_room (signalC s));
        inversion E; subst; reflexivity.
    + destruct (pc_main s); try discriminate.
      destruct (buf (finishC s)).
      * destruct (pc_go s); inversion E; subst; reflexivity.
      * inversion E; subst; reflexivity.
    + exfalso. apply Hn. left. reflexivity.
Qed.

(** X1: with [--config] the named file alone is handed to viper and the
    home directory is not searched; without it viper searches the home
    directory for ".node-labeler-operator" and no file is named. *)
Theorem config_flag_selects_file (w : World) :
  (arg_config w <> "" ->
   cfgFile (configured w) = arg_config w /\
   viper.configFile (vp (configured w)) = arg_config w /\
   viper.configPaths (vp (configured w)) = []) /\
  (arg_config w = "" ->
   viper.configFile (vp (configured w)) = "" /\
   viper.configPaths (vp (configured w)) = [HomeDir w] /\
   viper.configName (vp (configured w)) = ".node-labeler-operator").
Proof.
  unfold configured, initConfig, viper.ReadInConfig. simpl.
  split; intros H.
  - apply String.eqb_neq in H. rewrite H. simpl.
    match goal with
    | |- context [read_config w ?v] => destruct (read_config w v)
    end; simpl; auto.
  - rewrite H. simpl.
    match goal with
    | |- context [read_config w ?v] => destruct (read_config w v)
    end; simpl; auto.
Qed.

Lemma config_flag_selects_file_witness :
  viper.configFile (vp (configured (world_with_config_flag "/etc/nlo.yaml")))
    = "/etc/nlo.yaml" /\
  viper.configPaths (vp (configured (world_with_config_flag "/etc/nlo.yaml")))
    = [] /\
  viper.configPaths (vp (configured demo_world)) = ["/root"].
Proof.
  destruct (config_flag_selects_file (world_with_config_flag "/etc/nlo.yaml"))
    as [H _].
  destruct (config_flag_selects_file demo_world) as [_ H'].
  destruct H as [_ [H1 H2]]; [simpl; discriminate|].
  destruct H' as [_ [H3 _]]; [reflexivity|].
  repeat split; assumption.
Defined.

Lemma wrap64_range (z : Z) :
  time.min_int64 <= time.wrap64 z <= time.max_int64.
Proof.
  unfold time.min_int64, time.max_int64, time.wrap64.
  change (2 ^ 63) with 9223372036854775808.
  change (2 ^ 64) with 18446744073709551616.
  pose proof (Z.mod_pos_bound (z + 9223372036854775808)
                              18446744073709551616 ltac:(lia)).
  lia.
Qed.

(** X3: for an [int] value [n] of [resync-seconds], line 115 yields exactly
    [n] seconds if and only if -9223372036 <= n <= 9223372036. *)
Theorem seconds_exact_iff (n : Z) :
  time.min_int64 <= n <= time.max_int64 ->
  (time.mul (time.of_int n) time.Second = n * 1000000000 <->
   -9223372036 <= n <= 9223372036).
Proof.
  intros Hn. split.
  - intros H.
    pose proof (wrap64_range (time.of_int n * time.Second)) as Hr.
    unfold time.mul in H. rewrite H in Hr.
    unfold time.min_int64, time.max_int64 in Hr.
    change (2 ^ 63) with 9223372036854775808 in Hr. lia.
  - intros H. apply seconds_exact. unfold fits_seconds.
    unfold time.min_int64, time.max_int64.
    change (2 ^ 63) with 9223372036854775808.
    change time.Second with 1000000000. lia.
Qed.

Lemma seconds_exact_iff_witness :
  time.mul (time.of_int 9223372036) time.Second = 9223372036 * 1000000000 /\
  time.mul (time.of_int (-9223372037)) time.Second
    <> -9223372037 * 1000000000.
Proof.
  split.
  - apply (seconds_exact_iff 9223372036); [vm_compute; split; discriminate|].
    lia.
  - intros H.
    apply (seconds_exact_iff (-9223372037)) in H;
      [lia | vm_compute; split; discriminate].
Defined.

(** X4: within that range a larger [resync-seconds] gives a strictly longer
    interval, so distinct values give distinct intervals and the sign is
    kept. *)
Theorem resync_interval_monotone (n m : Z) :
  -9223372036 <= n -> n < m -> m <= 9223372036 ->
  time.mul (time.of_int n) time.Second
  < time.mul (time.of_int m) time.Second.
Proof.
  intros Hn Hlt Hm.
  assert (Hin : forall k, -9223372036 <= k <= 9223372036 -> fits_seconds k).
  { intros k Hk. unfold fits_seconds, time.min_int64, time.max_int64.
    change (2 ^ 63) with 9223372036854775808.
    change time.Second with 1000000000. lia. }
  rewrite (seconds_exact n), (seconds_exact m); [lia | |]; apply Hin; lia.
Qed.

Lemma resync_interval_monotone_witness :
  time.mul (time.of_int (-1)) time.Second
  < time.mul (time.of_int 30) time.Second.
Proof.
  apply (resync_interval_monotone (-1) 30); lia.
Defined.

(** X5: while [run] waits in its select, a SIGTERM or SIGINT always gets it
    out: after the signal is raised the signal case can be taken, and [run]
    returns [nil], whatever the operator goroutine is doing. *)
Theorem signal_lets_run_return (C : ClientsFile) (O : OperatorPackage C)
    (w : World) (g : Globals) (sched : list Event) (r : Result C O)
    (s : State) (sg : Signal) :
  run O w g sched = Some r -> final r = Some s ->
  outcome r = Blocked ->
  sg = SIGTERM \/ sg = SIGINT ->
  exists r',
    run O w g (sched ++ [Deliver sg; SelectSignal]) = Some r' /\
    outcome r' = Returns None.
Proof.
  intros Hrun Hfin Hblk Hsg.
  destruct (run_started _ _ _ _ _ _ _ Hrun Hfin) as [He Ho].
  pose proof (exec_Reachable _ _ _ start_Reachable He) as Hr.
  assert (Hm : pc_main s = AtSelect).
  { rewrite Ho in Hblk. unfold outcome_of in Hblk.
    destruct (pc_main s); [reflexivity | discriminate]. }
  assert (Hstep : exists s', exec s [Deliver sg; SelectSignal] = Some s' /\
                             pc_main s' = Returned None).
  { cbn [exec step]. rewrite (r_notify _ Hr). unfold has_room.
    rewrite (r_cap _ Hr).
    assert (Hsub : subscribed [SIGTERM; SIGINT] sg = true)
      by (destruct Hsg; subst; reflexivity).
    rewrite Hsub.
    destruct (buf (signalC s)) as [|b l] eqn:B; cbn; rewrite Hm; cbn;
      rewrite ?B; eexists; split; reflexivity. }
  destruct Hstep as [s' [He' Hm']].
  revert Hrun. unfold run.
  destruct (GetKubernetesClients C w g Std) as [[[nl crd] k8s] [e|]].
  - intros H; inversion H; subst; simpl in Hfin; discriminate.
  - destruct (New O _ nl crd k8s Std) as [op [e|]].
    + intros H; inversion H; subst; simpl in Hfin; discriminate.
    + intros _. rewrite exec_app, He, He'.
      eexists. split; [reflexivity|]. simpl.
      unfold outcome_of. rewrite Hm'. reflexivity.
Qed.

Lemma signal_lets_run_return_witness :
  exists r',
    run demo_operator demo_world (configured demo_world)
        ([OpReturns (Some "watch closed")] ++ [Deliver SIGTERM; SelectSignal])
      = Some r' /\
    outcome r' = Returns None.
Proof.
  eapply (signal_lets_run_return demo_clients demo_operator demo_world
            (configured demo_world) [OpReturns (Some "watch closed")]
            _ _ SIGTERM);
    [reflexivity | reflexivity | reflexivity | left; reflexivity].
Defined.

(** X6: while [run] waits in its select, a result of [op.Run] can always be
    taken: the select's completion case returns exactly that result and
    lets the operator goroutine finish its send. *)
Theorem finish_lets_run_return (C : ClientsFile) (O : OperatorPackage C)
    (w : World) (g : Globals) (sched : list Event) (r : Result C O)
    (s : State) (x : error) :
  run O w g sched = Some r -> final r = Some s ->
  outcome r = Blocked ->
  pc_go s = Sending x ->
  exists r' s',
    run O w g (sched ++ [SelectFinish]) = Some r' /\
    final r' = Some s' /\
    outcome r' = Returns x /\ pc_go s' = Finished.
Proof.
  intros Hrun Hfin Hblk Hgo.
  destruct (run_started _ _ _ _ _ _ _ Hrun Hfin) as [He Ho].
  pose proof (exec_Reachable _ _ _ start_Reachable He) as Hr.
  assert (Hm : pc_main s = AtSelect).
  { rewrite Ho in Hblk. unfold outcome_of in Hblk.
    destruct (pc_main s); [reflexivity | discriminate]. }
  assert (Hstep : exists s', exec s [SelectFinish] = Some s' /\
                             pc_main s' = Returned x /\
                             pc_go s' = Finished).
  { cbn [exec step]. rewrite Hm, (r_finishC _ Hr), Hgo. cbn.
    eexists. split; [reflexivity|]. split; [|reflexivity].
    destruct x; reflexivity. }
  destruct Hstep as [s' [He' [Hm' Hgo']]].
  revert Hrun. unfold run.
  destruct (GetKubernetesClients C w g Std) as [[[nl crd] k8s] [e|]].
  - intros H; inversion H; subst; simpl in Hfin; discriminate.
  - destruct (New O _ nl crd k8s Std) as [op [e|]].
    + intros H; inversion H; subst; simpl in Hfin; discriminate.
    + intros _. rewrite exec_app, He, He'.
      eexists. exists s'. split; [reflexivity|]. simpl.
      split; [reflexivity|]. split; [|assumption].
      unfold outcome_of. rewrite Hm'. reflexivity.
Qed.

Lemma finish_lets_run_return_witness :
  exists r' s',
    run demo_operator demo_world (configured demo_world)
        ([Deliver SIGHUP; OpReturns (Some "watch closed")] ++ [SelectFinish])
      = Some r' /\
    final r' = Some s' /\
    outcome r' = Returns (Some "watch closed") /\ pc_go s' = Finished.
Proof.
  eapply (finish_lets_run_return demo_clients demo_operator demo_world
            (configured demo_world)
            [Deliver SIGHUP; OpReturns (Some "watch closed")]
            _ _ (Some "watch closed"));
    reflexivity.
Defined.

(** X7: when the select takes the completion case, the operator goroutine
    gets past its send and stays finished, [finishC] is left empty, and
    nothing is logged. *)
Theorem finish_path_completes_send (C : ClientsFile) (O : OperatorPackage C)
    (w : World) (g : Globals) (sched : list Event) (r : Result C O)
    (s : State) :
  run O w g sched = Some r -> final r = Some s ->
  In SelectFinish sched ->
  pc_go s = Finished /\ buf (finishC s) = [] /\ log s = [].
Proof.
  intros Hrun Hfin Hin.
  destruct (run_started _ _ _ _ _ _ _ Hrun Hfin) as [He _].
  pose proof (exec_Reachable _ _ _ start_Reachable He) as Hr.
  split; [|split].
  - destruct (in_split _ _ Hin) as [pre [post Heq]]. subst sched.
    destruct (exec_split _ _ _ _ _ He) as [s1 [s2 [H1 [H2 H3]]]].
    pose proof (exec_Reachable _ _ _ start_Reachable H1) as Hr1.
    assert (Hg2 : pc_go s2 = Finished).
    { simpl in H2. destruct (pc_main s1); try discriminate.
      rewrite (r_finishC _ Hr1) in H2. simpl in H2.
      destruct (pc_go s1); inversion H2; subst; reflexivity. }
    assert (Hn2 : pc_go s2 <> Running) by (rewrite Hg2; discriminate).
    destruct (exec_after_OpReturns post s2 s Hn2 H3) as [Hn [_ Hk]].
    destruct (pc_go s) as [|x|] eqn:G; [congruence | | reflexivity].
    specialize (Hk x eq_refl). congruence.
  - rewrite (r_finishC _ Hr). reflexivity.
  - assert (Hns : ~ In SelectSignal sched).
    { intros Hsig.
      destruct (in_split _ _ Hin) as [pre [post Heq]]. subst sched.
      destruct (exec_split _ _ _ _ _ He) as [s1 [s2 [H1 [H2 H3]]]].
      destruct (step_select s1 s2 SelectFinish eq_refl H2) as [Hm1 [x Hm2]].
      destruct (exec_Returned _ _ _ _ Hm2 H3) as [_ Hpost].
      pose proof (exec_AtSelect _ _ _ H1 Hm1) as Hpre.
      apply in_app_or in Hsig. destruct Hsig as [Hs|[Hs|Hs]].
      - exact (proj1 (no_select_not_In _ Hpre) Hs).
      - discriminate.
      - exact (proj1 (no_select_not_In _ Hpost) Hs). }
    rewrite (exec_log_unchanged _ _ _ He Hns). reflexivity.
Qed.

Lemma finish_path_completes_send_witness :
  exists r s,
    run demo_operator demo_world (configured demo_world)
        [Deliver SIGINT; OpReturns None; SelectFinish] = Some r /\
    final r = Some s /\ pc_go s = Finished /\ log s = [].
Proof.
  eexists. eexists. split; [reflexivity|]. split; [reflexivity|].
  destruct (finish_path_completes_send demo_clients demo_operator demo_world
              (configured demo_world)
              [Deliver SIGINT; OpReturns None; SelectFinish] _ _
              eq_refl eq_refl) as [H1 [_ H3]]; [simpl; auto|].
  split; assumption.
Defined.

(** X8: the log of [run] holds the line "Signal captured, exiting..." once
    if the select took the signal case, and is empty otherwise. *)
Theorem log_exactly_on_signal (C : ClientsFile) (O : OperatorPackage C)
    (w : World) (g : Globals) (sched : list Event) (r : Result C O)
    (s : State) :
  run O w g sched = Some r -> final r = Some s ->
  (In SelectSignal sched -> log s = ["Signal captured, exiting..."]) /\
  (~ In SelectSignal sched -> log s = []).
Proof.
  intros Hrun Hfin.
  destruct (run_started _ _ _ _ _ _ _ Hrun Hfin) as [He _].
  split.
  - intros Hin.
    destruct (in_split _ _ Hin) as [pre [post Heq]]. subst sched.
    destruct (exec_split _ _ _ _ _ He) as [s1 [s2 [H1 [H2 H3]]]].
    destruct (step_select s1 s2 SelectSignal eq_refl H2) as [Hm1 _].
    destruct (step_SelectSignal _ _ H2) as [Hm2 [_ Hl2]].
    destruct (exec_Returned _ _ _ _ Hm2 H3) as [_ Hpost].
    pose proof (exec_AtSelect _ _ _ H1 Hm1) as Hpre.
    rewrite (exec_log_unchanged _ _ _ H3 (proj1 (no_select_not_In _ Hpost))).
    rewrite Hl2.
    rewrite (exec_log_unchanged _ _ _ H1 (proj1 (no_select_not_In _ Hpre))).
    reflexivity.
  - intros Hn. rewrite (exec_log_unchanged _ _ _ He Hn). reflexivity.
Qed.

Lemma log_exactly_on_signal_witness :
  exists r s,
    run demo_operator demo_world (configured demo_world)
        [Deliver SIGINT; Deliver SIGTERM; SelectSignal; Deliver SIGTERM]
      = Some r /\
    final r = Some s /\ log s = ["Signal captured, exiting..."].
Proof.
  eexists. eexists. split; [reflexivity|]. split; [reflexivity|].
  destruct (log_exactly_on_signal demo_clients demo_operator demo_world
              (configured demo_world)
              [Deliver SIGINT; Deliver SIGTERM; SelectSignal; Deliver SIGTERM]
              _ _ eq_refl eq_refl) as [H _].
  apply H. simpl. auto.
Defined.

(** X9: when the construction of the clients or of the operator fails
    with [e], [run] returns [e] at once, whatever events follow: after a
    client failure nothing else is called; after an operator failure
    [op.Run] is never called; in both cases no goroutine is started and no
    select is entered. *)
Theorem setup_failure_starts_nothing (C : ClientsFile)
    (O : OperatorPackage C) (w : World) (g : Globals) (e : string)
    (nl : NodeLabelerClient C) (crd : CRDClient C) (k8s : KubeClient C) :
  (GetKubernetesClients C w g Std = (nl, crd, k8s, Some e) ->
   forall sched,
     run O w g sched =
     Some (mkResult C O [CallGetKubernetesClients Std]
                    (Returns (Some e)) None)) /\
  (GetKubernetesClients C w g Std = (nl, crd, k8s, None) ->
   snd (New O (NewOperatorConfig O (resync_interval w g)) nl crd k8s Std)
     = Some e ->
   forall sched,
     run O w g sched =
     Some (mkResult C O
             [CallGetKubernetesClients Std;
              CallNewOperatorConfig (resync_interval w g);
              CallNew (NewOperatorConfig O (resync_interval w g))
                      nl crd k8s Std]
             (Returns (Some e)) None)).
Proof.
  split.
  - intros Hcl sched. unfold run. rewrite Hcl. reflexivity.
  - intros Hcl Hnew sched. unfold run. rewrite Hcl.
    fold (resync_interval w g).
    destruct (New O (NewOperatorConfig O (resync_interval w g))
                  nl crd k8s Std) as [op [e'|]]; simpl in Hnew.
    + inversion Hnew; subst. reflexivity.
    + discriminate.
Qed.

Lemma setup_failure_starts_nothing_witness :
  run failing_operator demo_world (configured demo_world)
      [Deliver SIGTERM; SelectSignal]
  = Some (mkResult demo_clients failing_operator
            [CallGetKubernetesClients Std;
             CallNewOperatorConfig 30000000000;
             CallNew (O := failing_operator) 30000000000
                     "nodelabeler" "crd" "kubernetes" Std]
            (Returns (Some "cannot create operator")) None) /\
  run operator_without_clients demo_world (configured demo_world)
      [OpReturns None; SelectFinish]
  = Some (mkResult failing_clients operator_without_clients
            [CallGetKubernetesClients Std]
            (Returns (Some "no kubeconfig")) None).
Proof.
  destruct (setup_failure_starts_nothing demo_clients failing_operator
              demo_world (configured demo_world) "cannot create operator"
              "nodelabeler" "crd" "kubernetes") as [_ H2].
  destruct (setup_failure_starts_nothing failing_clients
              operator_without_clients demo_world (configured demo_world)
              "no kubeconfig" "" "" "") as [H1 _].
  split.
  - apply (H2 eq_refl eq_refl).
  - apply (H1 eq_refl).
Defined.

(** X10: a stop signal received by a started [run] ends the process the
    normal way: [Execute] returns to [main] without calling [os.Exit] and
    prints nothing of its own. *)
Theorem Execute_graceful_stop (C : ClientsFile) (O : OperatorPackage C)
    (w : World) (sched : list Event) (r : Result C O) (s : State) :
  arg_error w = None ->
  run O w (configured w) sched = Some r -> final r = Some s ->
  In SelectSignal sched ->
  Execute O w sched = Some (mkProcess (stdout (configured w)) BackInMain).
Proof.
  intros Harg Hrun Hfin Hin.
  destruct (run_started _ _ _ _ _ _ _ Hrun Hfin) as [He Ho].
  destruct (exec_signal_received _ _ _ He Hin) as [Hm _].
  unfold Execute, rootCmd_Execute. rewrite Harg.
  fold (configured w). rewrite Hrun, Ho.
  unfold outcome_of. rewrite Hm. reflexivity.
Qed.

Lemma Execute_graceful_stop_witness :
  Execute demo_operator (world_with_config 10)
          [OpReturns (Some "watch closed"); Deliver SIGTERM; SelectSignal]
  = Some (mkProcess ["Using config file: /root/.node-labeler-operator.yaml"]
                    BackInMain).
Proof.
  eapply (Execute_graceful_stop demo_clients demo_operator
            (world_with_config 10)
            [OpReturns (Some "watch closed"); Deliver SIGTERM; SelectSignal]);
    [reflexivity | reflexivity | reflexivity | simpl; auto].
Defined.

(** X11: a started [run] returns only for a reason: either [op.Run]
    returned and the select took its result, which is what [run] returns,
    or a SIGTERM or SIGINT was raised and [run] returns [nil].  Other
    signals never make it return. *)
Theorem run_returns_for_a_reason (C : ClientsFile) (O : OperatorPackage C)
    (w : World) (g : Globals) (sched : list Event) (r : Result C O)
    (s : State) (ret : error) :
  run O w g sched = Some r -> final r = Some s ->
  outcome r = Returns ret ->
  (In (OpReturns ret) sched /\ In SelectFinish sched) \/
  (ret = None /\ In SelectSignal sched /\
   exists sg, In (Deliver sg) sched /\ (sg = SIGTERM \/ sg = SIGINT)).
Proof.
  intros Hrun Hfin Hout.
  destruct (run_started _ _ _ _ _ _ _ Hrun Hfin) as [He Ho].
  assert (Hm : pc_main s = Returned ret).
  { rewrite Ho in Hout. unfold outcome_of in Hout.
    destruct (pc_main s); inversion Hout; reflexivity. }
  destruct (no_select sched) eqn:Hns.
  - rewrite (exec_no_select _ _ _ He Hns) in Hm. discriminate.
  - destruct (no_select_false_split _ Hns)
      as [pre [ev [post [Heq [Hsel Hpre]]]]].
    subst sched.
    destruct (exec_split _ _ _ _ _ He) as [s1 [s2 [H1 [H2 H3]]]].
    destruct ev; try discriminate.
    + left.
      assert (Hin : In SelectFinish (pre ++ SelectFinish :: post))
        by (apply in_or_app; right; left; reflexivity).
      destruct (exec_finish_received _ _ He Hin) as [x [Hx [Hi _]]].
      split; [|assumption]. congruence.
    + right.
      assert (Hin : In SelectSignal (pre ++ SelectSignal :: post))
        by (apply in_or_app; right; left; reflexivity).
      destruct (exec_signal_received _ _ _ He Hin) as [Hx _].
      split; [congruence|]. split; [assumption|].
      pose proof (exec_signal_buffered pre start s1 start_Reachable H1
                    (proj1 (no_select_not_In _ Hpre))) as Hb.
      simpl in Hb.
      destruct (first_subscribed pre) as [sg|] eqn:F.
      * destruct (first_subscribed_In _ _ F) as [Hd Hs].
        exists sg. split; [apply in_or_app; left; assumption | assumption].
      * exfalso. simpl in H2. destruct (pc_main s1); try discriminate.
        rewrite Hb in H2. discriminate.
Qed.

Lemma run_returns_for_a_reason_witness :
  In (OpReturns (Some "watch closed"))
     [Deliver SIGHUP; OpReturns (Some "watch closed"); SelectFinish] /\
  exists r,
    run demo_operator demo_world (configured demo_world)
        [Deliver SIGHUP; OpReturns (Some "watch closed"); SelectFinish]
      = Some r.
Proof.
  destruct (run_returns_for_a_reason demo_clients demo_operator demo_world
              (configured demo_world)
              [Deliver SIGHUP; OpReturns (Some "watch closed"); SelectFinish]
              _ _ (Some "watch closed") eq_refl eq_refl eq_refl)
    as [[H _] | [H _]].
  - split; [exact H | eexists; reflexivity].
  - discriminate.
Defined.
